(** * ADF4351 synthesizer driver: register computation and 3-wire transfer

    A shallow embedding of the [ADF4351] class (ADF4351.h / ADF4351.cpp) and
    the properties of it that the specification states.

    Conventions of the embedding
    - [uint8_t], [uint16_t] and [uint32_t] values are integers of [Z] inside
      the range of the type; the functions [uint8_t], [uint16_t], [uint32_t]
      are the C++ conversions to these types (reduction modulo 2^w).
    - [int] is 32 bits wide (RP2350 / Arduino-Pico).  Every expression the
      driver evaluates in [int] stays far inside the [int] range, so it is
      written with the operations of [Z] directly.
    - [double] is IEEE-754 binary64, taken from the Standard Library's
      [SpecFloat] (round to nearest, ties to even).
    - Undefined behaviour (integer division by zero, a floating value that
      does not fit the integer type it is converted to) is [None].
    - The pins are modelled by the history of the calls to the Arduino pin
      API, field [wire] of the state. *)

From Stdlib Require Import ZArith List Bool Lia Btauto.
From Stdlib Require Import Floats.SpecFloat.
From coqutil Require Import Z.bitblast.
Import ListNotations.

Local Open Scope Z_scope.

(** ** Fixed-width unsigned integers *)

Module Width.

Definition uint8_t (z : Z) : Z := z mod 2 ^ 8.
Definition uint16_t (z : Z) : Z := z mod 2 ^ 16.
Definition uint32_t (z : Z) : Z := z mod 2 ^ 32.

Definition is_uint8 (z : Z) : Prop := 0 <= z < 2 ^ 8.
Definition is_uint16 (z : Z) : Prop := 0 <= z < 2 ^ 16.
Definition is_uint32 (z : Z) : Prop := 0 <= z < 2 ^ 32.

Definition UINT32_MAX : Z := 4294967295.

End Width.
Export Width.

(** ** Undefined behaviour as failure *)

Definition bind {A B : Type} (m : option A) (k : A -> option B) : option B :=
  match m with
  | Some a => k a
  | None => None
  end.

Notation "x <- m ;; k" := (bind m (fun x => k))
  (at level 61, m at next level, right associativity).

(** Unsigned division; dividing by zero is undefined. *)
Definition udiv (a b : Z) : option Z :=
  if b =? 0 then None else Some (a / b).

(** ** IEEE-754 binary64 *)

Module Double.

Definition prec : Z := 53.
Definition emax : Z := 1024.

Definition double : Type := spec_float.

(** Conversion of an integer; exact below 2^53. *)
Definition of_Z (z : Z) : double := binary_normalize prec emax z 0 false.

Definition div : double -> double -> double := SFdiv prec emax.
Definition sub : double -> double -> double := SFsub prec emax.
Definition mul : double -> double -> double := SFmul prec emax.

(** The integer part, rounding toward zero; none for infinities and NaN. *)
Definition trunc (x : double) : option Z :=
  match x with
  | S754_zero _ => Some 0
  | S754_finite s m e =>
      Some (cond_Zopp s (if 0 <=? e then Z.shiftl (Zpos m) e
                         else Z.shiftr (Zpos m) (- e)))
  | S754_infinity _ | S754_nan => None
  end.

(** [(uint32_t) x]: the fractional part is discarded; the behaviour is
    undefined when the truncated value is not a [uint32_t]. *)
Definition to_uint32 (x : double) : option Z :=
  z <- trunc x ;;
  if (0 <=? z) && (z <=? UINT32_MAX) then Some z else None.


(** [x] is the positive integer [z], below 2^53, with a 53-bit mantissa. *)
Definition holds (x : spec_float) (z : Z) : Prop :=
  exists m e, x = S754_finite false m e /\ Zdigits2 (Zpos m) = 53 /\
              e = Zdigits2 z - 53 /\ Zpos m = z * 2 ^ (- e).

End Double.

(** ** The Arduino pin API *)

Definition LOW : Z := 0.
Definition HIGH : Z := 1.
Definition OUTPUT : Z := 1.

Inductive pin_call : Type :=
| pinMode (pin mode : Z)
| digitalWrite (pin val : Z)
| delayMicroseconds (us : Z).

(** ** The driver object *)

Record ADF4351 : Type := mkADF4351 {
  _le_pin : Z;
  _clk_pin : Z;
  _data_pin : Z;
  _ce_pin : Z;
  _frequency : Z;
  _refFreq : Z;
  _powerLevel : Z;
  _outputEnabled : bool;
  _lowNoiseMode : bool;
  _registers : list Z;
  wire : list pin_call
}.

Definition with_frequency (f : Z) (s : ADF4351) : ADF4351 :=
  mkADF4351 (_le_pin s) (_clk_pin s) (_data_pin s) (_ce_pin s)
    f (_refFreq s) (_powerLevel s) (_outputEnabled s) (_lowNoiseMode s)
    (_registers s) (wire s).

Definition with_refFreq (r : Z) (s : ADF4351) : ADF4351 :=
  mkADF4351 (_le_pin s) (_clk_pin s) (_data_pin s) (_ce_pin s)
    (_frequency s) r (_powerLevel s) (_outputEnabled s) (_lowNoiseMode s)
    (_registers s) (wire s).

Definition with_powerLevel (p : Z) (s : ADF4351) : ADF4351 :=
  mkADF4351 (_le_pin s) (_clk_pin s) (_data_pin s) (_ce_pin s)
    (_frequency s) (_refFreq s) p (_outputEnabled s) (_lowNoiseMode s)
    (_registers s) (wire s).

Definition with_outputEnabled (b : bool) (s : ADF4351) : ADF4351 :=
  mkADF4351 (_le_pin s) (_clk_pin s) (_data_pin s) (_ce_pin s)
    (_frequency s) (_refFreq s) (_powerLevel s) b (_lowNoiseMode s)
    (_registers s) (wire s).

Definition with_lowNoiseMode (b : bool) (s : ADF4351) : ADF4351 :=
  mkADF4351 (_le_pin s) (_clk_pin s) (_data_pin s) (_ce_pin s)
    (_frequency s) (_refFreq s) (_powerLevel s) (_outputEnabled s) b
    (_registers s) (wire s).

Definition with_registers (r : list Z) (s : ADF4351) : ADF4351 :=
  mkADF4351 (_le_pin s) (_clk_pin s) (_data_pin s) (_ce_pin s)
    (_frequency s) (_refFreq s) (_powerLevel s) (_outputEnabled s)
    (_lowNoiseMode s) r (wire s).

(** The calls [cs], made in order after those already made. *)
Definition call (cs : list pin_call) (s : ADF4351) : ADF4351 :=
  mkADF4351 (_le_pin s) (_clk_pin s) (_data_pin s) (_ce_pin s)
    (_frequency s) (_refFreq s) (_powerLevel s) (_outputEnabled s)
    (_lowNoiseMode s) (_registers s) (wire s ++ cs).

(** [_registers[i]] and [_registers[i] = v]. *)
Definition reg (i : nat) (s : ADF4351) : Z := nth i (_registers s) 0.

Fixpoint store (i : nat) (v : Z) (l : list Z) : list Z :=
  match l, i with
  | [], _ => []
  | _ :: t, O => v :: t
  | h :: t, S j => h :: store j v t
  end.

Definition set_reg (i : nat) (v : Z) (s : ADF4351) : ADF4351 :=
  with_registers (store i v (_registers s)) s.

(** ** ADF4351.cpp *)

(** The constructor.  It leaves [_refFreq] uninitialised; [junk] stands for
    whatever the member holds until [begin] assigns it. *)
Definition ADF4351_new (le_pin clk_pin data_pin ce_pin junk : Z) : ADF4351 :=
  mkADF4351 le_pin clk_pin data_pin ce_pin
    0 junk 3 true true [0; 0; 0; 0; 0; 0] [].

(** One pass of the loop body of [writeRegister] for bit [i]. *)
Definition clock_bit (i : nat) (value : Z) (s : ADF4351) : ADF4351 :=
  call [ digitalWrite (_data_pin s) (Z.land (Z.shiftr value (Z.of_nat i)) 1);
         digitalWrite (_clk_pin s) HIGH;
         delayMicroseconds 1;
         digitalWrite (_clk_pin s) LOW;
         delayMicroseconds 1 ] s.

(** [for (int i = n - 1; i >= 0; i--)] of [writeRegister]. *)
Fixpoint shift_out (n : nat) (value : Z) (s : ADF4351) : ADF4351 :=
  match n with
  | O => s
  | S i => shift_out i value (clock_bit i value s)
  end.

Definition writeRegister (value : Z) (s : ADF4351) : ADF4351 :=
  let s := call [digitalWrite (_le_pin s) LOW] s in
  let s := shift_out 32 value s in
  call [digitalWrite (_le_pin s) HIGH; delayMicroseconds 1] s.

(** [for (int i = n - 1; i >= 0; i--) writeRegister(_registers[i]);] *)
Fixpoint write_down (n : nat) (s : ADF4351) : ADF4351 :=
  match n with
  | O => s
  | S i => write_down i (writeRegister (reg i s) s)
  end.

Definition calculateRFDivider (frequency : Z) : Z :=
  if frequency <? 68750000 then 6
  else if frequency <? 137500000 then 5
  else if frequency <? 275000000 then 4
  else if frequency <? 550000000 then 3
  else if frequency <? 1100000000 then 2
  else if frequency <? 2200000000 then 1
  else 0.

(** [(uint32_t)((((double)vcoFreq / (double)pfdFreq) - intValue) * mod)] *)
Definition fracValue_of (vcoFreq pfdFreq intValue mod_ : Z) : option Z :=
  Double.to_uint32
    (Double.mul
       (Double.sub
          (Double.div (Double.of_Z vcoFreq) (Double.of_Z pfdFreq))
          (Double.of_Z intValue))
       (Double.of_Z mod_)).

Definition updateRegisters (s : ADF4351) : option ADF4351 :=
  let divider := calculateRFDivider (_frequency s) in
  let rfDivider := uint8_t (Z.shiftl 1 divider) in
  let vcoFreq := uint32_t (_frequency s * rfDivider) in
  let refDivider := 1 in
  pfdFreq <- udiv (_refFreq s) refDivider ;;
  let mod_ := 1000 in
  quotient <- udiv vcoFreq pfdFreq ;;
  let intValue := uint16_t quotient in
  fracValue <- fracValue_of vcoFreq pfdFreq intValue mod_ ;;
  let s := set_reg 0
             (Z.lor (Z.lor (Z.shiftl intValue 15)
                           (uint32_t (Z.shiftl fracValue 3))) 0) s in
  let s := set_reg 1
             (Z.lor (Z.lor (Z.lor (Z.shiftl 0 15) (Z.shiftl 1 27))
                           (Z.shiftl mod_ 3)) 1) s in
  let s := set_reg 2
             (Z.lor (Z.lor (Z.lor
                (if _lowNoiseMode s then Z.shiftl 1 21 else Z.shiftl 1 20)
                (Z.shiftl 6 9)) (Z.shiftl refDivider 14)) 2) s in
  let s := set_reg 3
             (Z.lor (Z.lor (Z.shiftl (_powerLevel s) 3) (Z.shiftl 3 10)) 3)
             s in
  let bandSelectClockDiv := 200 in
  let s := set_reg 4
             (Z.lor (Z.lor (Z.lor (Z.shiftl divider 20)
                (if _outputEnabled s then 0 else Z.shiftl 1 5))
                (Z.shiftl bandSelectClockDiv 12)) 4) s in
  let s := set_reg 5 (Z.lor (Z.shiftl 1 22) 5) s in
  Some s.

Definition setFrequency (frequency : Z) (s : ADF4351)
  : option (bool * ADF4351) :=
  if (frequency <? 35000000) || (4400000000 <? frequency) then
    Some (false, s)
  else
    let s := with_frequency frequency s in
    s <- updateRegisters s ;;
    let s := write_down 6 s in
    Some (true, s).

Definition setPowerLevel (level : Z) (s : ADF4351) : ADF4351 :=
  let level := if 3 <? level then 3 else level in
  let s := with_powerLevel level s in
  let s := set_reg 3 (Z.land (reg 3 s)
                        (uint32_t (Z.lnot (Z.shiftl 3 3)))) s in
  let s := set_reg 3 (Z.lor (reg 3 s) (Z.shiftl (_powerLevel s) 3)) s in
  writeRegister (reg 3 s) s.

Definition enableOutput (enable : bool) (s : ADF4351) : ADF4351 :=
  let s := with_outputEnabled enable s in
  let s :=
    if enable then
      set_reg 4 (Z.land (reg 4 s) (uint32_t (Z.lnot (Z.shiftl 1 5)))) s
    else
      set_reg 4 (Z.lor (reg 4 s) (Z.shiftl 1 5)) s in
  writeRegister (reg 4 s) s.

Definition setPhase (phase : Z) (s : ADF4351) : ADF4351 :=
  let phase := if 4095 <? phase then 4095 else phase in
  let s := set_reg 1 (Z.land (reg 1 s)
                        (uint32_t (Z.lnot (Z.shiftl 4095 15)))) s in
  let s := set_reg 1 (Z.lor (reg 1 s) (Z.shiftl phase 15)) s in
  writeRegister (reg 1 s) s.

Definition setLowNoiseMode (lowNoise : bool) (s : ADF4351) : ADF4351 :=
  let s := with_lowNoiseMode lowNoise s in
  let s :=
    if lowNoise then
      let s := set_reg 2 (Z.lor (reg 2 s) (Z.shiftl 1 21)) s in
      set_reg 2 (Z.land (reg 2 s) (uint32_t (Z.lnot (Z.shiftl 1 20)))) s
    else
      let s := set_reg 2 (Z.land (reg 2 s)
                            (uint32_t (Z.lnot (Z.shiftl 1 21)))) s in
      set_reg 2 (Z.lor (reg 2 s) (Z.shiftl 1 20)) s in
  writeRegister (reg 2 s) s.


Definition isLocked (s : ADF4351) : bool := true.

Definition begin (refFreq : Z) (s : ADF4351) : option ADF4351 :=
  let s := with_refFreq refFreq s in
  let s := call [ pinMode (_le_pin s) OUTPUT;
                  pinMode (_clk_pin s) OUTPUT;
                  pinMode (_data_pin s) OUTPUT;
                  pinMode (_ce_pin s) OUTPUT ] s in
  let s := call [ digitalWrite (_le_pin s) HIGH;
                  digitalWrite (_clk_pin s) LOW;
                  digitalWrite (_data_pin s) LOW;
                  digitalWrite (_ce_pin s) HIGH ] s in
  let s := set_reg 0 0x00580000 s in
  let s := set_reg 1 0x08008011 s in
  let s := set_reg 2 0x00004E42 s in
  let s := set_reg 3 0x000004B3 s in
  let s := set_reg 4 0x00800024 s in
  let s := set_reg 5 0x00580005 s in
  let s := write_down 6 s in
  r <- setFrequency 100000000 s ;;
  Some (snd r).

(** A sequence of calls of the public interface, run on one object. *)
Inductive api_call : Type :=
| Begin (refFreq : Z)
| SetFrequency (frequency : Z)
| SetPowerLevel (level : Z)
| EnableOutput (enable : bool)
| SetPhase (phase : Z)
| SetLowNoiseMode (lowNoise : bool).

Definition step (c : api_call) (s : ADF4351) : option ADF4351 :=
  match c with
  | Begin refFreq => begin refFreq s
  | SetFrequency frequency => r <- setFrequency frequency s ;; Some (snd r)
  | SetPowerLevel level => Some (setPowerLevel level s)
  | EnableOutput enable => Some (enableOutput enable s)
  | SetPhase phase => Some (setPhase phase s)
  | SetLowNoiseMode lowNoise => Some (setLowNoiseMode lowNoise s)
  end.

Fixpoint run (cs : list api_call) (s : ADF4351) : option ADF4351 :=
  match cs with
  | [] => Some s
  | c :: cs' => s' <- step c s ;; run cs' s'
  end.

(** The arguments of a call are values of the parameter types. *)
Definition well_typed (c : api_call) : Prop :=
  match c with
  | Begin refFreq => is_uint32 refFreq
  | SetFrequency frequency => is_uint32 frequency
  | SetPowerLevel level => is_uint8 level
  | SetPhase phase => is_uint16 phase
  | EnableOutput _ | SetLowNoiseMode _ => True
  end.

(** The setters that update one field of one register. *)
Definition field_update (c : api_call) : Prop :=
  match c with
  | SetPowerLevel _ | EnableOutput _ | SetPhase _ | SetLowNoiseMode _ => True
  | Begin _ | SetFrequency _ => False
  end.

(** ** Bit fields of the register words, as the driver lays them out *)

Definition address_bits (w : Z) : Z := Z.land w 7.
Definition power_field (w : Z) : Z := Z.land (Z.shiftr w 3) 3.
Definition phase_field (w : Z) : Z := Z.land (Z.shiftr w 15) 4095.
Definition INT_field (w : Z) : Z := Z.land (Z.shiftr w 15) 65535.
Definition FRAC_field (w : Z) : Z := Z.land (Z.shiftr w 3) 4095.

(** ** What the statements are about *)

(** The 32-bit product [vcoFreq] of [updateRegisters], for a frequency. *)
Definition vcoFreq_of (frequency : Z) : Z :=
  let divider := calculateRFDivider frequency in
  let rfDivider := uint8_t (Z.shiftl 1 divider) in
  uint32_t (frequency * rfDivider).

(** The register words that [updateRegisters] writes. *)

Definition R0 (intValue fracValue : Z) : Z :=
  Z.lor (Z.lor (Z.shiftl intValue 15) (uint32_t (Z.shiftl fracValue 3))) 0.

Definition R1 : Z :=
  Z.lor (Z.lor (Z.lor (Z.shiftl 0 15) (Z.shiftl 1 27)) (Z.shiftl 1000 3)) 1.

Definition R2 (lowNoiseMode : bool) : Z :=
  Z.lor (Z.lor (Z.lor (if lowNoiseMode then Z.shiftl 1 21 else Z.shiftl 1 20)
                      (Z.shiftl 6 9)) (Z.shiftl 1 14)) 2.

Definition R3 (powerLevel : Z) : Z :=
  Z.lor (Z.lor (Z.shiftl powerLevel 3) (Z.shiftl 3 10)) 3.

Definition R4 (divider : Z) (outputEnabled : bool) : Z :=
  Z.lor (Z.lor (Z.lor (Z.shiftl divider 20)
                      (if outputEnabled then 0 else Z.shiftl 1 5))
               (Z.shiftl 200 12)) 4.

Definition R5 : Z := Z.lor (Z.shiftl 1 22) 5.

(** The array has its six elements. *)
Definition shaped (s : ADF4351) : Prop := length (_registers s) = 6%nat.

(** [s'] is [s] after some more pin calls, with the same members. *)
Definition emitted (s s' : ADF4351) : Prop := exists cs, s' = call cs s.

(** From the constructor on: six registers, a power level of 0 to 3. *)
Definition constructed (s : ADF4351) : Prop :=
  shaped s /\ 0 <= _powerLevel s <= 3.

(** Bits [2:0] of every register word hold the register's index. *)
Definition addressed (s : ADF4351) : Prop :=
  forall i : nat, (i < 6)%nat -> address_bits (reg i s) = Z.of_nat i.

(** The fields of registers 2, 3 and 4 that mirror a member agree with it. *)
Definition mirrored (s : ADF4351) : Prop :=
  power_field (reg 3 s) = _powerLevel s /\
  Z.testbit (reg 4 s) 5 = negb (_outputEnabled s) /\
  Z.testbit (reg 2 s) 21 = _lowNoiseMode s /\
  Z.testbit (reg 2 s) 20 = negb (_lowNoiseMode s).

Definition initialised (s : ADF4351) : Prop :=
  constructed s /\ addressed s /\ mirrored s.


(** A sequence of calls to try the statements on. *)
Definition example_calls : list api_call :=
  [ SetPowerLevel 2; Begin 25000000; SetFrequency 145000000;
    SetPowerLevel 1; EnableOutput false; SetPhase 100;
    SetLowNoiseMode false; SetFrequency 20 ].

(** * Properties *)

(** ** The RF divider table *)

Lemma calculateRFDivider_range (f : Z) : 0 <= calculateRFDivider f <= 6.
Proof.
  unfold calculateRFDivider.
  repeat match goal with |- context [?a <? ?b] => destruct (a <? b) end; lia.
Qed.

Lemma rfDivider_pow2 (f : Z) :
  uint8_t (Z.shiftl 1 (calculateRFDivider f)) = 2 ^ calculateRFDivider f.
Proof.
  unfold calculateRFDivider.
  repeat match goal with |- context [?a <? ?b] => destruct (a <? b) end;
    reflexivity.
Qed.

Ltac split_tiers :=
  unfold calculateRFDivider;
  repeat match goal with
         | |- context [?a <? ?b] => destruct (Z.ltb_spec a b)
         end.

(** C3: between 35 MHz and 4.4 GHz the divider exponent is the tier of the
    frequency among the breakpoints 68.75 / 137.5 / 275 / 550 / 1100 /
    2200 MHz, each tier closed below and open above (a frequency equal to a
    breakpoint takes the smaller exponent), and the exponent never grows
    with the frequency. *)
Theorem divider_tiers (f : Z) :
  35000000 <= f <= 4400000000 ->
  (f < 68750000 -> calculateRFDivider f = 6) /\
  (68750000 <= f < 137500000 -> calculateRFDivider f = 5) /\
  (137500000 <= f < 275000000 -> calculateRFDivider f = 4) /\
  (275000000 <= f < 550000000 -> calculateRFDivider f = 3) /\
  (550000000 <= f < 1100000000 -> calculateRFDivider f = 2) /\
  (1100000000 <= f < 2200000000 -> calculateRFDivider f = 1) /\
  (2200000000 <= f -> calculateRFDivider f = 0) /\
  (forall f2, f < f2 -> f2 <= 4400000000 ->
              calculateRFDivider f2 <= calculateRFDivider f).
Proof.
  intros Hf.
  repeat split; intros; try (split_tiers; lia).
Qed.

Lemma divider_tiers_witness :
  calculateRFDivider 68750000 = 5 /\
  calculateRFDivider 200000000 <= calculateRFDivider 68750000.
Proof.
  assert (H : 35000000 <= 68750000 <= 4400000000) by lia.
  destruct (divider_tiers 68750000 H) as (_ & H5 & _ & _ & _ & _ & _ & Hm).
  split; [apply H5; lia | apply Hm; lia].
Defined.

Lemma product_in_band (f : Z) :
  35000000 <= f <= 4400000000 ->
  2200000000 <= f * 2 ^ calculateRFDivider f <= 4400000000.
Proof.
  intros Hf. split_tiers; cbn; lia.
Qed.

(** C4: for a frequency between 35 MHz and 4.4 GHz, the frequency times two
    to the chosen exponent lies between 2.2 GHz and 4.4 GHz. *)
Theorem vco_in_band (f : Z) :
  35000000 <= f <= 4400000000 ->
  2200000000 <= f * 2 ^ calculateRFDivider f <= 4400000000.
Proof. exact (product_in_band f). Qed.

Lemma vco_in_band_witness :
  2200000000 <= 67500000 * 2 ^ calculateRFDivider 67500000 <= 4400000000.
Proof.
  apply (vco_in_band 67500000); lia.
Defined.

(** ** Bit-level reasoning *)

(** Equality of two bit-wise expressions, bit by bit. *)
Ltac bits :=
  eapply Z.bits_inj'; intros ?k ?Hk;
  Z.rewrite_bitwise; Z.discover_equal_testbit_indices; Z.destruct_ltbs;
  try (exfalso; lia);
  repeat match goal with
         | |- context [Z.testbit ?a ?i] =>
             rewrite (Z.testbit_neg_r a i) by lia
         end;
  try btauto.

Section Fields.

Variables (r v : Z) (pos width : Z).
Hypothesis Hpos : 0 <= pos.
Hypothesis Hwidth : 0 <= width.

(** [r &= ~(ones << pos); r |= v << pos] stores [v] in the field. *)
Lemma field_insert :
  0 <= v < 2 ^ width ->
  Z.land (Z.shiftr (Z.lor (Z.land r (uint32_t
                              (Z.lnot (Z.shiftl (Z.ones width) pos))))
                          (Z.shiftl v pos)) pos) (Z.ones width) = v.
Proof.
  intros Hv. unfold uint32_t.
  rewrite <- (Z.mod_small v (2 ^ width)) at 2 by lia.
  bits.
Qed.

(** ... and leaves the bits below the field alone. *)
Lemma field_insert_low (n : Z) :
  0 <= n <= pos -> n <= 32 ->
  Z.land (Z.lor (Z.land r (uint32_t (Z.lnot (Z.shiftl (Z.ones width) pos))))
                (Z.shiftl v pos)) (Z.ones n) = Z.land r (Z.ones n).
Proof.
  intros Hn Hn'. unfold uint32_t. bits.
Qed.

Lemma field_clear_low (n : Z) :
  0 <= n <= pos -> n <= 32 ->
  Z.land (Z.land r (uint32_t (Z.lnot (Z.shiftl (Z.ones width) pos))))
         (Z.ones n) = Z.land r (Z.ones n).
Proof.
  intros Hn Hn'. unfold uint32_t. bits.
Qed.

Lemma field_set_low (n : Z) :
  0 <= n <= pos ->
  Z.land (Z.lor r (Z.shiftl v pos)) (Z.ones n) = Z.land r (Z.ones n).
Proof.
  intros Hn. bits.
Qed.

End Fields.

Lemma address_shiftl (a n : Z) : 3 <= n -> address_bits (Z.shiftl a n) = 0.
Proof.
  intros Hn. unfold address_bits. change 7 with (Z.ones 3). bits.
Qed.

Lemma address_lor (a b : Z) :
  address_bits (Z.lor a b) = Z.lor (address_bits a) (address_bits b).
Proof. unfold address_bits. apply Z.land_lor_distr_l. Qed.

Lemma address_uint32 (a : Z) : address_bits (uint32_t a) = address_bits a.
Proof.
  unfold address_bits, uint32_t. change 7 with (Z.ones 3). bits.
Qed.


(** ** Rounding in binary64

    Facts about [SpecFloat]'s operations on the positive numbers the driver
    meets: a value [m * 2^e] is compared with integers on a power-of-two
    grid, so every statement is one about integers. *)

Module DoubleFacts.

Import Double.

Lemma digits2_size (p : positive) : digits2_pos p = Pos.size p.
Proof. induction p; cbn; congruence. Qed.

Lemma Zdigits2_log2 (m : Z) : 0 < m -> Zdigits2 m = Z.log2 m + 1.
Proof.
  destruct m as [|p|p]; try lia. intros _. cbn [Zdigits2].
  rewrite digits2_size. destruct p; cbn; lia.
Qed.

Lemma Zdigits2_bounds (m : Z) :
  0 < m -> 2 ^ (Zdigits2 m - 1) <= m < 2 ^ Zdigits2 m.
Proof.
  intros H. rewrite Zdigits2_log2 by exact H.
  replace (Z.log2 m + 1 - 1) with (Z.log2 m) by lia.
  pose proof (Z.log2_spec m H). replace (Z.log2 m + 1) with (Z.succ (Z.log2 m)) by lia.
  exact H0.
Qed.

Lemma Zdigits2_unique (m d : Z) :
  2 ^ (d - 1) <= m < 2 ^ d -> 0 < d -> Zdigits2 m = d.
Proof.
  intros H Hd.
  assert (0 < m) by (pose proof (Z.pow_pos_nonneg 2 (d - 1)); lia).
  rewrite Zdigits2_log2 by assumption.
  rewrite (Z.log2_unique m (d - 1)); try lia.
  replace (Z.succ (d - 1)) with d by lia. exact H.
Qed.

Lemma Zdigits2_pos (m : Z) : 0 < m -> 0 < Zdigits2 m.
Proof. intros H. rewrite Zdigits2_log2 by exact H. pose proof (Z.log2_nonneg m). lia. Qed.

Lemma pow2_xO (p : positive) : 2 ^ Z.pos p~0 = 2 ^ Z.pos p * 2 ^ Z.pos p.
Proof.
  rewrite Pos2Z.inj_xO, <- Z.pow_add_r by lia. f_equal. lia.
Qed.

Lemma pow2_xI (p : positive) : 2 ^ Z.pos p~1 = 2 * (2 ^ Z.pos p * 2 ^ Z.pos p).
Proof.
  rewrite Pos2Z.inj_xI, <- Z.pow_add_r, <- Z.pow_succ_r by lia. f_equal. lia.
Qed.

Lemma div_exact (a b q : Z) : 0 < b -> a = q * b -> a / b = q.
Proof. intros Hb ->. apply Z.div_mul. lia. Qed.

Lemma mod_exact (a b q : Z) : 0 < b -> a = q * b -> a mod b = 0.
Proof. intros Hb ->. apply Z.mod_mul. lia. Qed.

Lemma scale_le (a b c : Z) : 0 <= c -> a <= b -> a * c <= b * c.
Proof. intros Hc H. apply Z.mul_le_mono_nonneg_r; assumption. Qed.

Lemma scale_lt (a b c : Z) : 0 < c -> a < b -> a * c < b * c.
Proof. intros Hc H. apply Z.mul_lt_mono_pos_r; assumption. Qed.

Lemma unscale_le (a b c : Z) : 0 < c -> a * c <= b * c -> a <= b.
Proof. intros Hc H. apply Z.mul_le_mono_pos_r in H; assumption. Qed.

Lemma unscale_lt (a b c : Z) : 0 < c -> a * c < b * c -> a < b.
Proof. intros Hc H. apply Z.mul_lt_mono_pos_r in H; assumption. Qed.

Lemma div_sandwich (n d : Z) :
  0 < d -> (n / d) * d <= n < (n / d + 1) * d.
Proof.
  intros Hd. pose proof (Z.mul_div_le n d Hd).
  pose proof (Z.mul_succ_div_gt n d Hd). lia.
Qed.

Lemma shr_1_m (mrs : shr_record) :
  0 <= shr_m mrs -> shr_m (shr_1 mrs) = shr_m mrs / 2.
Proof.
  destruct mrs as [m r s]; cbn [shr_m]. intros H.
  destruct m as [|[p|p|]|p]; cbn [shr_1 shr_m]; try lia.
  - reflexivity.
  - rewrite Pos2Z.inj_xI. apply Z.div_unique with (r := 1); lia.
  - rewrite Pos2Z.inj_xO. apply Z.div_unique with (r := 0); lia.
  - reflexivity.
Qed.

Lemma iter_shr_m (p : positive) (mrs : shr_record) :
  0 <= shr_m mrs ->
  shr_m (iter_pos shr_1 p mrs) = shr_m mrs / 2 ^ Zpos p.
Proof.
  revert mrs. induction p as [p IH|p IH|]; intros mrs H; cbn [iter_pos].
  - assert (H1 : 0 <= shr_m (shr_1 mrs)) by (rewrite shr_1_m by exact H; apply Z.div_pos; lia).
    assert (H2 : 0 <= shr_m (iter_pos shr_1 p (shr_1 mrs)))
      by (rewrite IH by exact H1; apply Z.div_pos; [lia|apply Z.pow_pos_nonneg; lia]).
    rewrite IH, IH, shr_1_m by assumption.
    rewrite !Z.div_div by (try apply Z.pow_pos_nonneg; lia).
    f_equal. now rewrite pow2_xI.
  - assert (H2 : 0 <= shr_m (iter_pos shr_1 p mrs))
      by (rewrite IH by exact H; apply Z.div_pos; [lia|apply Z.pow_pos_nonneg; lia]).
    rewrite IH, IH by assumption.
    rewrite !Z.div_div by (try apply Z.pow_pos_nonneg; lia).
    f_equal. now rewrite pow2_xO.
  - rewrite shr_1_m by exact H. reflexivity.
Qed.

(** Shifting out zeros from an exact record keeps it exact. *)
Lemma shr_1_exact (m : Z) :
  0 <= m -> m mod 2 = 0 ->
  shr_1 (Build_shr_record m false false) = Build_shr_record (m / 2) false false.
Proof.
  intros H E. destruct m as [|[p|p|]|p]; cbn [shr_1]; try lia.
  - reflexivity.
  - rewrite Pos2Z.inj_xI in E. 
    rewrite Z.add_comm, Z.mul_comm, Z.mod_add in E by lia. discriminate.
  - f_equal. rewrite Pos2Z.inj_xO. apply Z.div_unique with (r := 0); lia.
  - discriminate.
Qed.

Lemma iter_shr_exact (p : positive) (m : Z) :
  0 <= m -> m mod 2 ^ Zpos p = 0 ->
  iter_pos shr_1 p (Build_shr_record m false false)
  = Build_shr_record (m / 2 ^ Zpos p) false false.
Proof.
  revert m. induction p as [p IH|p IH|]; intros m H E; cbn [iter_pos].
  - rewrite pow2_xI in *.
    assert (P : 0 < 2 ^ Z.pos p) by (apply Z.pow_pos_nonneg; lia).
    apply Z.mod_divide in E; [|lia]. destruct E as [k E].
    assert (K : 0 <= k) by nia.
    assert (E1 : m mod 2 = 0) by (apply (mod_exact m 2 (k * 2 ^ Z.pos p * 2 ^ Z.pos p)); lia).
    assert (D1 : m / 2 = k * 2 ^ Z.pos p * 2 ^ Z.pos p)
      by (apply div_exact; lia).
    rewrite shr_1_exact by assumption. rewrite D1.
    rewrite IH; [|nia|apply Z.mod_mul; lia].
    rewrite Z.div_mul by lia.
    rewrite IH; [|nia|apply Z.mod_mul; lia].
    rewrite Z.div_mul by lia.
    f_equal. symmetry. apply div_exact; lia.
  - rewrite pow2_xO in *.
    assert (P : 0 < 2 ^ Z.pos p) by (apply Z.pow_pos_nonneg; lia).
    apply Z.mod_divide in E; [|lia]. destruct E as [k E].
    assert (K : 0 <= k) by nia.
    assert (D2 : m = k * 2 ^ Z.pos p * 2 ^ Z.pos p) by lia.
    rewrite D2.
    rewrite IH; [|nia|apply Z.mod_mul; lia].
    rewrite Z.div_mul by lia.
    rewrite IH; [|nia|apply Z.mod_mul; lia].
    rewrite Z.div_mul by lia.
    f_equal. symmetry. apply div_exact; lia.
  - change (2 ^ 1) with 2 in *. apply shr_1_exact; assumption.
Qed.

Lemma pow2_pos (k : Z) : 0 <= k -> 0 < 2 ^ k.
Proof. intros. apply Z.pow_pos_nonneg; lia. Qed.

Lemma shr_spec (mrs : shr_record) (e k : Z) :
  0 <= shr_m mrs ->
  exists x,
    shr mrs e k = (x, e + Z.max 0 k) /\
    shr_m x = shr_m mrs / 2 ^ Z.max 0 k /\
    (Z.max 0 k = 0 -> x = mrs) /\
    (shr_r mrs = false -> shr_s mrs = false ->
     shr_m mrs mod 2 ^ Z.max 0 k = 0 ->
     x = Build_shr_record (shr_m mrs / 2 ^ Z.max 0 k) false false).
Proof.
  intros H. destruct k as [|p|p]; cbn [shr Z.max Z.compare].
  - exists mrs. rewrite Z.add_0_r, Z.div_1_r. repeat split.
    intros; destruct mrs; cbn in *; subst; reflexivity.
  - exists (iter_pos shr_1 p mrs). repeat split.
    + now apply iter_shr_m.
    + lia.
    + intros Hr Hs E. destruct mrs as [m r s]; cbn in *; subst.
      now apply iter_shr_exact.
  - exists mrs. rewrite Z.add_0_r, Z.div_1_r. repeat split.
    intros; destruct mrs; cbn in *; subst; reflexivity.
Qed.

Lemma shr_m_of_loc (m : Z) (l : location) : shr_m (shr_record_of_loc m l) = m.
Proof. destruct l as [|[]]; reflexivity. Qed.

Lemma loc_of_shr_of_loc (m : Z) (l : location) :
  loc_of_shr_record (shr_record_of_loc m l) = l.
Proof. destruct l as [|[]]; reflexivity. Qed.

Lemma fexp_shift (d e : Z) :
  -1074 <= e ->
  Z.max 0 (fexp prec emax (d + e) - e) = Z.max 0 (d - 53).
Proof. unfold fexp, emin, prec, emax. lia. Qed.

Lemma shr_fexp_spec (m e : Z) (l : location) :
  0 <= m -> -1074 <= e ->
  let n := Z.max 0 (Zdigits2 m - 53) in
  exists x,
    shr_fexp prec emax m e l = (x, e + n) /\
    shr_m x = m / 2 ^ n /\
    (n = 0 -> x = shr_record_of_loc m l) /\
    (l = loc_Exact -> m mod 2 ^ n = 0 ->
     x = Build_shr_record (m / 2 ^ n) false false).
Proof.
  intros Hm He n. unfold shr_fexp.
  destruct (shr_spec (shr_record_of_loc m l) e
              (fexp prec emax (Zdigits2 m + e) - e)) as (x & E & M & Z0 & X).
  { now rewrite shr_m_of_loc. }
  rewrite fexp_shift in * by exact He. fold n in E, M, Z0, X.
  rewrite shr_m_of_loc in *.
  exists x. repeat split; try assumption.
  intros -> Hz. apply X; auto.
Qed.

Lemma round_nearest_even_cases (m : Z) (l : location) :
  (round_nearest_even m l = m \/ round_nearest_even m l = m + 1) /\
  (l = loc_Exact -> round_nearest_even m l = m).
Proof.
  destruct l as [|[]]; cbn; try destruct (Z.even m);
    (split; [auto | try discriminate; auto]).
Qed.

Lemma div_pow2_digits (m n : Z) :
  0 < m -> 0 <= n -> n < Zdigits2 m ->
  0 < m / 2 ^ n /\ Zdigits2 (m / 2 ^ n) = Zdigits2 m - n.
Proof.
  intros Hm Hn Hd.
  pose proof (Zdigits2_bounds m Hm) as [L U].
  pose proof (pow2_pos n Hn) as P.
  assert (L' : 2 ^ (Zdigits2 m - n - 1) <= m / 2 ^ n).
  { apply Z.div_le_lower_bound; [lia|].
    rewrite <- Z.pow_add_r by lia.
    replace (n + (Zdigits2 m - n - 1)) with (Zdigits2 m - 1) by lia. exact L. }
  assert (U' : m / 2 ^ n < 2 ^ (Zdigits2 m - n)).
  { apply Z.div_lt_upper_bound; [lia|].
    rewrite <- Z.pow_add_r by lia.
    replace (n + (Zdigits2 m - n)) with (Zdigits2 m) by lia. exact U. }
  pose proof (pow2_pos (Zdigits2 m - n - 1)).
  split; [lia|]. apply Zdigits2_unique; lia.
Qed.

Lemma digits_le (m d : Z) : 0 < m -> 0 <= d -> m < 2 ^ d -> Zdigits2 m <= d.
Proof.
  intros Hm Hd H. pose proof (Zdigits2_bounds m Hm) as [L _].
  destruct (Z_le_gt_dec (Zdigits2 m) d) as [|G]; [assumption|].
  assert (2 ^ d <= 2 ^ (Zdigits2 m - 1)) by (apply Z.pow_le_mono_r; lia). lia.
Qed.

Lemma digits_ge (m d : Z) : 0 < m -> 2 ^ d <= m -> d < Zdigits2 m.
Proof.
  intros Hm H. pose proof (Zdigits2_bounds m Hm) as [_ U].
  destruct (Z_lt_le_dec d (Zdigits2 m)) as [|G]; [assumption|].
  assert (2 ^ Zdigits2 m <= 2 ^ d) by (apply Z.pow_le_mono_r; lia). lia.
Qed.

(** Rounding a positive number given by mantissa, exponent and location. *)
Lemma round_aux (m e : Z) (l : location) :
  0 < m -> -1074 <= e ->
  let n := Z.max 0 (Zdigits2 m - 53) in
  e + n + 1 <= 971 ->
  exists m' n2,
    binary_round_aux prec emax false m e l
      = S754_finite false m' (e + n + n2) /\
    (n2 = 0 \/ (n2 = 1 /\ Zpos m' = 2 ^ 52)) /\
    (Zpos m' * 2 ^ n2 = m / 2 ^ n \/ Zpos m' * 2 ^ n2 = m / 2 ^ n + 1) /\
    (l = loc_Exact -> m mod 2 ^ n = 0 -> Zpos m' * 2 ^ n2 = m / 2 ^ n) /\
    Zdigits2 (Zpos m') <= 53.
Proof.
  intros Hm He n Hmax.
  assert (Hn : 0 <= n) by lia.
  pose proof (Zdigits2_pos m Hm) as Dpos.
  destruct (div_pow2_digits m n Hm Hn ltac:(lia)) as [M1pos D1].
  set (m1 := m / 2 ^ n) in *.
  assert (D1' : Zdigits2 m1 <= 53) by lia.
  unfold binary_round_aux.
  destruct (shr_fexp_spec m e l ltac:(lia) He) as (x & E & Mx & X0 & XE).
  fold n in E, Mx, X0, XE. fold m1 in Mx, XE. rewrite E.
  set (mr := round_nearest_even (shr_m x) (loc_of_shr_record x)).
  assert (R : (mr = m1 \/ mr = m1 + 1) /\
              (l = loc_Exact -> m mod 2 ^ n = 0 -> mr = m1)).
  { subst mr. rewrite Mx.
    destruct (round_nearest_even_cases m1 (loc_of_shr_record x)) as [C _].
    split; [exact C|]. intros Hl Hz. rewrite (XE Hl Hz). reflexivity. }
  destruct R as [R RE].
  assert (Hmr : 0 < mr) by lia.
  pose proof (Zdigits2_bounds m1 M1pos) as [_ U1].
  assert (U53 : 2 ^ Zdigits2 m1 <= 2 ^ 53) by (apply Z.pow_le_mono_r; lia).
  destruct (shr_fexp_spec mr (e + n) loc_Exact ltac:(lia) ltac:(lia))
    as (y & E2 & My & Y0 & YE).
  rewrite E2.
  destruct (Z_lt_le_dec mr (2 ^ 53)) as [Lt|Ge].
  - assert (Dr : Zdigits2 mr <= 53) by (apply digits_le; lia).
    replace (Z.max 0 (Zdigits2 mr - 53)) with 0 in * by lia.
    rewrite Z.pow_0_r, Z.div_1_r in My. rewrite My.
    destruct mr as [|pr|pr] eqn:Emr; try lia.
    replace (e + n + 0 <=? emax - prec) with true
      by (symmetry; apply Z.leb_le; unfold emax, prec; lia).
    exists pr, 0. rewrite Z.pow_0_r, Z.mul_1_r. repeat split; auto.
  - assert (Emr : mr = 2 ^ 53) by lia.
    assert (Dr : Zdigits2 mr = 54) by (rewrite Emr; reflexivity).
    replace (Z.max 0 (Zdigits2 mr - 53)) with 1 in * by lia.
    rewrite Emr in My. change (2 ^ 53 / 2 ^ 1) with (Z.pos (2 ^ 52)) in My.
    rewrite My.
    replace (e + n + 1 <=? emax - prec) with true
      by (symmetry; apply Z.leb_le; unfold emax, prec; lia).
    exists (2 ^ 52)%positive, 1.
    change (Z.pos (2 ^ 52) * 2 ^ 1) with (2 ^ 53). rewrite <- Emr.
    repeat split; auto. now vm_compute.
Qed.

Lemma mul_pow2_cancel_le (a b k : Z) : 0 <= k -> a * 2 ^ k <= b * 2 ^ k -> a <= b.
Proof. intros Hk H. apply (unscale_le a b (2 ^ k)); [now apply pow2_pos | exact H]. Qed.

(** The rounded value lies between the grid points around the input. *)
Lemma round_aux_bounds (m e : Z) (l : location) :
  0 < m -> -1074 <= e ->
  let n := Z.max 0 (Zdigits2 m - 53) in
  e + n + 1 <= 971 ->
  exists m' e',
    binary_round_aux prec emax false m e l = S754_finite false m' e' /\
    e + n <= e' <= e + n + 1 /\
    (forall A g, e' <= g -> A * 2 ^ (g - e) <= m -> A * 2 ^ (g - e') <= Zpos m') /\
    (forall B g, e' <= g ->
       m < B * 2 ^ (g - e) \/ (l = loc_Exact /\ m <= B * 2 ^ (g - e)) ->
       Zpos m' <= B * 2 ^ (g - e')) /\
    (n = 0 -> l = loc_Exact -> e' = e /\ Zpos m' = m) /\
    Zdigits2 (Zpos m') <= 53 /\
    (2 ^ 52 <= m -> 2 ^ 52 <= Zpos m').
Proof.
  intros Hm He n Hmax.
  destruct (round_aux m e l Hm He Hmax) as (m' & n2 & E & Hn2 & V & X & D).
  fold n in E, V, X.
  assert (Hn : 0 <= n) by lia.
  pose proof (pow2_pos n Hn) as Pn.
  assert (N2 : 0 <= n2 <= 1) by lia.
  assert (P2 : 0 < 2 ^ n2) by (apply pow2_pos; lia).
  exists m', (e + n + n2). split; [exact E|]. split; [lia|].
  assert (S : forall g, e + n + n2 <= g ->
     2 ^ (g - e) = 2 ^ (g - (e + n + n2)) * 2 ^ n2 * 2 ^ n).
  { intros g Hg. rewrite <- !Z.pow_add_r by lia. f_equal. lia. }
  split; [|split; [|split; [|split]]].
  - intros A g Hg HA. rewrite (S g Hg) in HA.
    pose proof (pow2_pos (g - (e + n + n2)) ltac:(lia)) as Pk.
    assert (A * 2 ^ (g - (e + n + n2)) * 2 ^ n2 <= m / 2 ^ n)
      by (apply Z.div_le_lower_bound; [lia|]; lia).
    apply (mul_pow2_cancel_le _ _ n2); lia.
  - intros B g Hg HB. rewrite (S g Hg) in HB.
    pose proof (pow2_pos (g - (e + n + n2)) ltac:(lia)) as Pk.
    apply (mul_pow2_cancel_le _ _ n2); [lia|].
    destruct HB as [HB|[Hl HB]].
    + assert (m / 2 ^ n < B * 2 ^ (g - (e + n + n2)) * 2 ^ n2)
        by (apply Z.div_lt_upper_bound; [lia|]; lia).
      lia.
    + destruct (Z_lt_le_dec m (B * (2 ^ (g - (e + n + n2)) * 2 ^ n2 * 2 ^ n)))
        as [Lt|Ge].
      * assert (m / 2 ^ n < B * 2 ^ (g - (e + n + n2)) * 2 ^ n2)
          by (apply Z.div_lt_upper_bound; [lia|]; lia).
        lia.
      * assert (Em : m = (B * 2 ^ (g - (e + n + n2)) * 2 ^ n2) * 2 ^ n) by lia.
        rewrite (X Hl (mod_exact _ _ _ Pn Em)).
        rewrite (div_exact _ _ _ Pn Em). lia.
  - intros N0 Hl. rewrite N0 in *. rewrite Z.pow_0_r, Z.div_1_r in *.
    specialize (X Hl (Z.mod_1_r m)).
    destruct Hn2 as [->|[-> M52]].
    + rewrite Z.pow_0_r, Z.mul_1_r in X. split; lia.
    + exfalso. rewrite Z.pow_1_r, M52 in X.
      assert (53 < Zdigits2 m) by (apply digits_ge; lia).
      lia.
  - exact D.
  - intros H52.
    destruct Hn2 as [->|[-> M52]]; [|lia].
    rewrite Z.pow_0_r, Z.mul_1_r in V.
    assert (52 < Zdigits2 m) by (apply digits_ge; lia).
    destruct (div_pow2_digits m n Hm Hn ltac:(lia)) as [P1 D1].
    pose proof (Zdigits2_bounds (m / 2 ^ n) P1) as [L1 _].
    replace (Zdigits2 (m / 2 ^ n) - 1) with 52 in L1 by lia.
    lia.
Qed.

Lemma iter_xO (d m : positive) : Zpos (Pos.iter xO m d) = Zpos m * 2 ^ Zpos d.
Proof.
  induction d as [|d IH] using Pos.peano_ind.
  - cbn [Pos.iter]. rewrite Pos2Z.inj_xO. change (2 ^ 1) with 2. lia.
  - rewrite Pos.iter_succ, Pos2Z.inj_xO, IH, Pos2Z.inj_succ, Z.pow_succ_r by lia.
    lia.
Qed.

Lemma shl_align_spec (mx : positive) (ex ex' : Z) :
  shl_align mx ex ex' =
    (Z.to_pos (Zpos mx * 2 ^ (ex - Z.min ex ex')), Z.min ex ex') /\
  0 < Zpos mx * 2 ^ (ex - Z.min ex ex').
Proof.
  unfold shl_align.
  destruct (ex' - ex) as [|d|d] eqn:E.
  - replace (Z.min ex ex') with ex by lia. rewrite Z.sub_diag, Z.pow_0_r, Z.mul_1_r.
    split; [reflexivity | lia].
  - replace (Z.min ex ex') with ex by lia. rewrite Z.sub_diag, Z.pow_0_r, Z.mul_1_r.
    split; [reflexivity | lia].
  - replace (Z.min ex ex') with ex' by lia.
    replace (ex - ex') with (Zpos d) by lia.
    rewrite <- iter_xO. split; [reflexivity | lia].
Qed.

Lemma digits_mul_pow2 (m k : Z) :
  0 < m -> 0 <= k -> Zdigits2 (m * 2 ^ k) = Zdigits2 m + k.
Proof.
  intros Hm Hk. pose proof (Zdigits2_bounds m Hm) as [L U].
  pose proof (Zdigits2_pos m Hm). pose proof (pow2_pos k Hk).
  apply Zdigits2_unique; [|lia].
  replace (Zdigits2 m + k - 1) with (Zdigits2 m - 1 + k) by lia.
  rewrite !Z.pow_add_r by lia.
  split; [apply scale_le | apply scale_lt]; lia.
Qed.

(** [binary_round] of a positive mantissa, inside the exponent range. *)
Lemma binary_round_spec (pm : positive) (e : Z) :
  -1074 <= e -> Zdigits2 (Zpos pm) + e <= 1000 ->
  exists m' e',
    binary_round prec emax false pm e = S754_finite false m' e' /\
    Z.min e (Zdigits2 (Zpos pm) + e - 53) <= e' /\
    e' <= Z.max (-1074) (Zdigits2 (Zpos pm) + e - 53) + 1 /\
    (forall B g, e' <= g -> e <= g ->
       Zpos pm <= B * 2 ^ (g - e) -> Zpos m' <= B * 2 ^ (g - e')) /\
    (forall A g, e' <= g -> e <= g ->
       A * 2 ^ (g - e) <= Zpos pm -> A * 2 ^ (g - e') <= Zpos m') /\
    (Zdigits2 (Zpos pm) <= 53 ->
       e' = Z.min e (fexp prec emax (Zdigits2 (Zpos pm) + e)) /\
       Zpos m' = Zpos pm * 2 ^ (e - e')) /\
    Zdigits2 (Zpos m') <= 53.
Proof.
  intros He Hd. unfold binary_round.
  set (d := Zdigits2 (Zpos pm)) in *.
  assert (Dpos : 0 < d) by (apply Zdigits2_pos; lia).
  change (Z.pos (digits2_pos pm)) with d.
  set (fe := fexp prec emax (d + e)).
  assert (Hfe : fe = Z.max (d + e - 53) (-1074)) by reflexivity.
  destruct (shl_align_spec pm e fe) as [-> Pz].
  set (ez := Z.min e fe) in *.
  set (mz := Zpos pm * 2 ^ (e - ez)) in *.
  assert (Dz : Zdigits2 mz = d + (e - ez)) by (apply digits_mul_pow2; lia).
  rewrite (Z2Pos.id mz Pz).
  destruct (round_aux_bounds mz ez loc_Exact Pz ltac:(lia) ltac:(lia))
    as (m' & e' & E & He' & Lo & Up & Ex & D & _).
  exists m', e'. split; [exact E|].
  assert (S : forall g, e <= g -> 2 ^ (g - ez) = 2 ^ (g - e) * 2 ^ (e - ez)).
  { intros g Hg. rewrite <- Z.pow_add_r by lia. f_equal. lia. }
  pose proof (pow2_pos (e - ez) ltac:(lia)) as Pe.
  repeat split.
  - lia.
  - lia.
  - intros B g Hg1 Hg2 HB. apply (Up B g Hg1). right. split; [reflexivity|].
    rewrite (S g Hg2), Z.mul_assoc. unfold mz. apply scale_le; lia.
  - intros A g Hg1 Hg2 HA. apply (Lo A g Hg1).
    rewrite (S g Hg2), Z.mul_assoc. unfold mz. apply scale_le; lia.
  - destruct (Ex ltac:(lia) eq_refl) as [-> _]. reflexivity.
  - destruct (Ex ltac:(lia) eq_refl) as [-> ->]. reflexivity.
  - exact D.
Qed.


Lemma of_Z_holds (z : Z) : 0 < z < 2 ^ 53 -> holds (of_Z z) z.
Proof.
  intros [Hz Hu]. destruct z as [|pz|pz]; try lia.
  unfold of_Z, binary_normalize.
  assert (D : Zdigits2 (Zpos pz) <= 53) by (apply digits_le; lia).
  pose proof (Zdigits2_pos (Zpos pz) Hz) as Dpos.
  destruct (binary_round_spec pz 0 ltac:(lia) ltac:(lia))
    as (m' & e' & E & _ & _ & _ & _ & Ex & _).
  destruct (Ex D) as [He Hm].
  assert (He' : e' = Zdigits2 (Zpos pz) - 53)
    by (rewrite He; unfold fexp, emin, prec, emax; lia).
  exists m', e'. split; [exact E|].
  split; [|split; [exact He'|]].
  - rewrite Hm, digits_mul_pow2 by lia. lia.
  - rewrite Hm. f_equal.
Qed.

Lemma SFdiv_core_53 (m1 m2 : positive) (e1 e2 : Z) :
  Zdigits2 (Zpos m1) = 53 -> Zdigits2 (Zpos m2) = 53 ->
  -1021 <= e1 - e2 ->
  SFdiv_core_binary prec emax (Zpos m1) e1 (Zpos m2) e2 =
    (Zpos m1 * 2 ^ 53 / Zpos m2, e1 - e2 - 53,
     new_location (Zpos m2) (Zpos m1 * 2 ^ 53 mod Zpos m2)).
Proof.
  intros D1 D2 He. unfold SFdiv_core_binary. rewrite D1, D2.
  replace (Z.min (fexp prec emax (53 + e1 - (53 + e2))) (e1 - e2))
    with (e1 - e2 - 53) by (unfold fexp, emin, prec, emax; lia).
  replace (e1 - e2 - (e1 - e2 - 53)) with 53 by lia.
  rewrite Z.shiftl_mul_pow2 by lia.
  unfold Z.div, Z.modulo.
  destruct (Z.div_eucl (Zpos m1 * 2 ^ 53) (Zpos m2)) as [q r]. reflexivity.
Qed.

(** The quotient of two integers below 2^32: a normal number, between the
    integer quotient and its successor, less than one unit in the last
    place away from the exact quotient. *)
Lemma div_bounds (x y : spec_float) (v p : Z) :
  holds x v -> holds y p -> 0 < v < 2 ^ 32 -> 0 < p < 2 ^ 32 ->
  exists m e,
    SFdiv prec emax x y = S754_finite false m e /\
    -86 <= e <= 0 /\
    (v / p) * 2 ^ (- e) <= Zpos m <= (v / p + 1) * 2 ^ (- e) /\
    Zdigits2 (Zpos m) <= 53 /\
    2 ^ 52 <= Zpos m /\
    (Zpos m - 1) * p <= v * 2 ^ (- e) < (Zpos m + 1) * p.
Proof.
  intros (m1 & e1 & -> & D1 & E1 & M1) (m2 & e2 & -> & D2 & E2 & M2) Hv Hp.
  assert (Dv : 0 < Zdigits2 v <= 32)
    by (split; [apply Zdigits2_pos | apply digits_le]; lia).
  assert (Dp : 0 < Zdigits2 p <= 32)
    by (split; [apply Zdigits2_pos | apply digits_le]; lia).
  cbn [SFdiv xorb].
  rewrite SFdiv_core_53 by (try assumption; lia).
  set (N := Zpos m1 * 2 ^ 53).
  set (q := N / Zpos m2).
  pose proof (Zdigits2_bounds (Zpos m1) ltac:(lia)) as [L1 U1].
  pose proof (Zdigits2_bounds (Zpos m2) ltac:(lia)) as [L2 U2].
  rewrite D1 in L1, U1. rewrite D2 in L2, U2.
  change (53 - 1) with 52 in *.
  assert (Q1 : 2 ^ 52 <= q).
  { apply Z.div_le_lower_bound; [lia|]. unfold N. lia. }
  assert (Q2 : q < 2 ^ 54).
  { apply Z.div_lt_upper_bound; [lia|]. unfold N. lia. }
  assert (Dq : 52 < Zdigits2 q <= 54)
    by (split; [apply digits_ge | apply digits_le]; lia).
  assert (Nq : q * Zpos m2 <= N < (q + 1) * Zpos m2)
    by (apply div_sandwich; lia).
  destruct (round_aux_bounds q (e1 - e2 - 53)
              (new_location (Zpos m2) (N mod Zpos m2))
              ltac:(lia) ltac:(lia) ltac:(lia))
    as (m & e & E & He & Lo & Up & _ & D & N52).
  exists m, e. split; [exact E|]. split; [lia|].
  set (Q := v / p).
  assert (HQ : Q * p <= v < (Q + 1) * p) by (apply div_sandwich; lia).
  assert (HQ0 : 0 <= Q) by (apply Z.div_pos; lia).
  set (a := - e1) in *. set (b := - e2) in *.
  assert (Ha : 0 <= a) by lia. assert (Hb : 0 <= b) by lia.
  pose proof (pow2_pos a Ha) as Pa. pose proof (pow2_pos b Hb) as Pb.
  replace (- e1) with a in M1 by lia. replace (- e2) with b in M2 by lia.
  assert (S : 2 ^ (0 - (e1 - e2 - 53)) * 2 ^ b = 2 ^ 53 * 2 ^ a).
  { rewrite <- !Z.pow_add_r by lia. f_equal. lia. }
  pose proof (pow2_pos (0 - (e1 - e2 - 53)) ltac:(lia)) as Ps.
  replace (- e) with (0 - e) by lia.
  split; [split|split; [exact D|split; [apply N52; exact Q1|]]].
  - apply (Lo Q 0); [lia|].
    apply Z.div_le_lower_bound; [lia|]. unfold N.
    rewrite M1, M2.
    replace (p * 2 ^ b * (Q * 2 ^ (0 - (e1 - e2 - 53))))
      with (Q * p * (2 ^ (0 - (e1 - e2 - 53)) * 2 ^ b)) by ring.
    rewrite S.
    replace (v * 2 ^ a * 2 ^ 53) with (v * (2 ^ 53 * 2 ^ a)) by ring.
    apply scale_le; lia.
  - apply (Up (Q + 1) 0); [lia|]. left.
    apply Z.div_lt_upper_bound; [lia|]. unfold N.
    rewrite M1, M2.
    replace (p * 2 ^ b * ((Q + 1) * 2 ^ (0 - (e1 - e2 - 53))))
      with ((Q + 1) * p * (2 ^ (0 - (e1 - e2 - 53)) * 2 ^ b)) by ring.
    rewrite S.
    replace (v * 2 ^ a * 2 ^ 53) with (v * (2 ^ 53 * 2 ^ a)) by ring.
    apply scale_lt; lia.
  - (* one unit in the last place *)
    set (G := 2 ^ (e - (e1 - e2 - 53))).
    assert (PG : 0 < G) by (apply pow2_pos; lia).
    assert (T1 : (Zpos m - 1) * G <= q).
    { destruct (Z_le_gt_dec ((Zpos m - 1) * G) q) as [|C]; [assumption|].
      assert (C' : q < (Zpos m - 1) * 2 ^ (e - (e1 - e2 - 53)))
        by (fold G; lia).
      specialize (Up (Zpos m - 1) e (Z.le_refl e) (or_introl C')).
      rewrite Z.sub_diag, Z.pow_0_r in Up. lia. }
    assert (T2 : q < (Zpos m + 1) * G).
    { destruct (Z_lt_le_dec q ((Zpos m + 1) * G)) as [|C]; [assumption|].
      assert (C' : (Zpos m + 1) * 2 ^ (e - (e1 - e2 - 53)) <= q)
        by (fold G; lia).
      specialize (Lo (Zpos m + 1) e (Z.le_refl e) C').
      rewrite Z.sub_diag, Z.pow_0_r in Lo. lia. }
    assert (SG : G * 2 ^ b * 2 ^ (0 - e) = 2 ^ 53 * 2 ^ a).
    { unfold G. rewrite <- !Z.pow_add_r by lia. f_equal. lia. }
    pose proof (pow2_pos (0 - e) ltac:(lia)) as Pe.
    assert (EN : N * 2 ^ (0 - e) = v * 2 ^ (0 - e) * (2 ^ 53 * 2 ^ a))
      by (unfold N; rewrite M1; ring).
    assert (EM : Zpos m2 * G * 2 ^ (0 - e) = p * (2 ^ 53 * 2 ^ a))
      by (rewrite M2, <- SG; ring).
    assert (P53 : 0 < 2 ^ 53 * 2 ^ a) by lia.
    set (K := 2 ^ 53 * 2 ^ a) in *.
    split.
    + assert (A1 : (Zpos m - 1) * G * Zpos m2 <= q * Zpos m2)
        by (apply scale_le; lia).
      assert (A2 : (Zpos m - 1) * G * Zpos m2 * 2 ^ (0 - e)
                   <= N * 2 ^ (0 - e))
        by (apply scale_le; lia).
      replace ((Zpos m - 1) * G * Zpos m2 * 2 ^ (0 - e))
        with ((Zpos m - 1) * (Zpos m2 * G * 2 ^ (0 - e))) in A2 by ring.
      rewrite EM, EN in A2.
      apply (unscale_le _ _ K P53). lia.
    + assert (A1 : (q + 1) * Zpos m2 <= (Zpos m + 1) * G * Zpos m2)
        by (apply scale_le; lia).
      assert (A2 : N * 2 ^ (0 - e)
                   < (Zpos m + 1) * G * Zpos m2 * 2 ^ (0 - e))
        by (apply scale_lt; lia).
      replace ((Zpos m + 1) * G * Zpos m2 * 2 ^ (0 - e))
        with ((Zpos m + 1) * (Zpos m2 * G * 2 ^ (0 - e))) in A2 by ring.
      rewrite EM, EN in A2.
      apply (unscale_lt _ _ K P53). lia.
Qed.

Lemma of_Z_0 : of_Z 0 = S754_zero false.
Proof. reflexivity. Qed.

(** Subtracting the integer quotient is exact. *)
Lemma sub_exact (m : positive) (e Q : Z) :
  -86 <= e <= 0 ->
  Q * 2 ^ (- e) <= Zpos m <= (Q + 1) * 2 ^ (- e) ->
  Zdigits2 (Zpos m) <= 53 ->
  0 <= Q < 2 ^ 53 ->
  let k := Zpos m - Q * 2 ^ (- e) in
  (k = 0 /\
   SFsub prec emax (S754_finite false m e) (of_Z Q) = S754_zero false) \/
  exists m' e',
    SFsub prec emax (S754_finite false m e) (of_Z Q)
      = S754_finite false m' e' /\
    -200 <= e' <= e /\ Zpos m' = k * 2 ^ (e - e') /\
    Zdigits2 (Zpos m') <= 53.
Proof.
  intros He Hm Dm HQ k.
  pose proof (pow2_pos (- e) ltac:(lia)) as Pe.
  destruct (Z.eq_dec Q 0) as [->|NZ].
  - rewrite of_Z_0. cbn [SFsub]. right. exists m, e.
    rewrite Z.sub_diag, Z.pow_0_r. subst k. repeat split; lia.
  - destruct (of_Z_holds Q ltac:(lia)) as (my & ey & -> & Dy & Ey & My).
    assert (DQ : 0 < Zdigits2 Q <= 53)
      by (split; [apply Zdigits2_pos | apply digits_le]; lia).
    pose proof (Zdigits2_bounds Q ltac:(lia)) as [LQ _].
    pose proof (Zdigits2_bounds (Zpos m) ltac:(lia)) as [_ Um].
    assert (Um' : Zpos m < 2 ^ 53).
    { assert (2 ^ Zdigits2 (Zpos m) <= 2 ^ 53)
        by (apply Z.pow_le_mono_r; lia). lia. }
    assert (Hey : ey <= e).
    { destruct (Z_le_gt_dec ey e) as [|C]; [assumption|exfalso].
      assert (2 ^ 53 <= 2 ^ (Zdigits2 Q - 1) * 2 ^ (- e)).
      { rewrite <- Z.pow_add_r by lia. apply Z.pow_le_mono_r; lia. }
      assert (2 ^ (Zdigits2 Q - 1) * 2 ^ (- e) <= Q * 2 ^ (- e))
        by (apply scale_le; lia).
      lia. }
    cbn [SFsub cond_Zopp].
    replace (Z.min e ey) with ey by lia.
    destruct (shl_align_spec m e ey) as [-> P1].
    destruct (shl_align_spec my ey ey) as [-> P2].
    cbn [fst]. rewrite !Z2Pos.id by assumption.
    replace (Z.min e ey) with ey in * by lia.
    replace (Z.min ey ey) with ey in * by lia.
    rewrite Z.sub_diag, Z.pow_0_r, Z.mul_1_r in *.
    assert (S1 : 2 ^ (- e) * 2 ^ (e - ey) = 2 ^ (- ey))
      by (rewrite <- Z.pow_add_r by lia; f_equal; lia).
    pose proof (pow2_pos (e - ey) ltac:(lia)) as Pa.
    pose proof (pow2_pos (- ey) ltac:(lia)) as Pz.
    assert (ED : Zpos m * 2 ^ (e - ey) - Zpos my = k * 2 ^ (e - ey)).
    { rewrite My, <- S1. subst k. ring. }
    rewrite ED.
    assert (Hk : 0 <= k <= 2 ^ (- e)) by (subst k; lia).
    destruct (Z.eq_dec k 0) as [K0|KN].
    + left. split; [exact K0|]. rewrite K0. reflexivity.
    + right.
      assert (PD : 0 < k * 2 ^ (e - ey)) by (apply Z.mul_pos_pos; lia).
      destruct (k * 2 ^ (e - ey)) as [|pD|pD] eqn:EpD; try lia.
      cbn [binary_normalize].
      assert (UD : Zpos pD <= 2 ^ 52).
      { rewrite <- EpD.
        assert (k * 2 ^ (e - ey) <= 2 ^ (- ey))
          by (rewrite <- S1; apply scale_le; lia).
        assert (2 ^ (- ey) <= 2 ^ 52) by (apply Z.pow_le_mono_r; lia).
        lia. }
      assert (DD : Zdigits2 (Zpos pD) <= 53)
        by (apply digits_le; try lia; change (2 ^ 53) with (2 * 2 ^ 52); lia).
      pose proof (Zdigits2_pos (Zpos pD) ltac:(lia)) as DDpos.
      destruct (binary_round_spec pD ey ltac:(lia) ltac:(lia))
        as (m' & e' & E & Lo & Hi & _ & _ & Ex & D').
      destruct (Ex DD) as [Ee' Em'].
      exists m', e'. split; [exact E|].
      assert (He' : e' <= ey) by lia.
      split; [lia|]. split; [|exact D'].
      rewrite Em', <- EpD.
      replace (e - e') with ((e - ey) + (ey - e')) by lia.
      rewrite Z.pow_add_r by lia. ring.
Qed.

Lemma of_Z_1000 : of_Z 1000 = S754_finite false 8796093022208000 (-43).
Proof. reflexivity. Qed.

Lemma digits_mul (a b da db : Z) :
  0 < a -> 0 < b -> Zdigits2 a <= da -> Zdigits2 b <= db ->
  Zdigits2 (a * b) <= da + db.
Proof.
  intros Ha Hb Da Db.
  pose proof (Zdigits2_bounds a Ha) as [_ Ua].
  pose proof (Zdigits2_bounds b Hb) as [_ Ub].
  pose proof (Zdigits2_pos a Ha). pose proof (Zdigits2_pos b Hb).
  assert (2 ^ Zdigits2 a <= 2 ^ da) by (apply Z.pow_le_mono_r; lia).
  assert (2 ^ Zdigits2 b <= 2 ^ db) by (apply Z.pow_le_mono_r; lia).
  apply digits_le; [apply Z.mul_pos_pos; lia | lia |].
  rewrite Z.pow_add_r by lia. apply Z.mul_lt_mono_nonneg; lia.
Qed.

(** Scaling a value between 0 and 1 by the modulus 1000: the result is
    kept between the integers and grid points around the exact product. *)
Lemma mul_round (m : positive) (e : Z) :
  -200 <= e <= 0 -> Zpos m <= 2 ^ (- e) -> Zdigits2 (Zpos m) <= 53 ->
  exists m' e',
    SFmul prec emax (S754_finite false m e) (of_Z 1000)
      = S754_finite false m' e' /\
    e - 43 <= e' <= -41 /\
    (forall A, A * 2 ^ (43 - e) <= Zpos m * (1000 * 2 ^ 43) ->
               A * 2 ^ (- e') <= Zpos m') /\
    (forall B, Zpos m * (1000 * 2 ^ 43) <= B * 2 ^ (e' - (e - 43)) ->
               Zpos m' <= B).
Proof.
  intros He Hm Dm. rewrite of_Z_1000. cbn [SFmul xorb].
  rewrite Pos2Z.inj_mul.
  set (c := Zpos 8796093022208000).
  assert (Hc : c = 1000 * 2 ^ 43) by reflexivity.
  assert (Dc : Zdigits2 c <= 53) by (now vm_compute).
  pose proof (pow2_pos (- e) ltac:(lia)) as Pe.
  assert (D1 : Zdigits2 (Zpos m) <= - e + 1).
  { apply digits_le; try lia.
    replace (- e + 1) with (Z.succ (- e)) by lia.
    rewrite Z.pow_succ_r by lia. lia. }
  assert (DP : Zdigits2 (Zpos m * c) <= Z.min 53 (- e + 1) + 53).
  { destruct (Z.min_spec 53 (- e + 1)) as [[_ ->]|[_ ->]];
      apply digits_mul; lia. }
  destruct (round_aux_bounds (Zpos m * c) (e + -43) loc_Exact
              ltac:(lia) ltac:(lia) ltac:(lia))
    as (m' & e' & E & He' & Lo & Up & _ & _).
  exists m', e'. split; [exact E|]. split; [lia|]. rewrite <- Hc. split.
  - intros A HA. replace (- e') with (0 - e') by lia.
    apply (Lo A 0); [lia|].
    replace (0 - (e + -43)) with (43 - e) by lia. exact HA.
  - intros B HB.
    specialize (Up B e' (Z.le_refl e')).
    rewrite Z.sub_diag, Z.pow_0_r, Z.mul_1_r in Up. apply Up.
    right. split; [reflexivity|].
    replace (e' - (e + -43)) with (e' - (e - 43)) by lia. exact HB.
Qed.

(** The conversion to [uint32_t] drops the fraction: below 1 in magnitude
    of exponent, the value [m * 2^e] becomes [m / 2^(-e)]. *)
Lemma to_uint32_floor (m : positive) (e : Z) :
  e < 0 -> Zpos m / 2 ^ (- e) <= UINT32_MAX ->
  to_uint32 (S754_finite false m e) = Some (Zpos m / 2 ^ (- e)).
Proof.
  intros He Hm. unfold to_uint32, trunc. cbn [cond_Zopp bind].
  destruct (Z.leb_spec 0 e); [lia|].
  rewrite Z.shiftr_div_pow2 by lia.
  pose proof (pow2_pos (- e) ltac:(lia)) as Pe.
  assert (0 <= Zpos m / 2 ^ (- e)) by (apply Z.div_pos; lia).
  replace (0 <=? Zpos m / 2 ^ (- e)) with true
    by (symmetry; apply Z.leb_le; lia).
  replace (Zpos m / 2 ^ (- e) <=? UINT32_MAX) with true
    by (symmetry; apply Z.leb_le; lia).
  reflexivity.
Qed.

End DoubleFacts.

(** FRAC as the driver computes it, against the exact quotient: with
    [w = v mod p], it is [1000 w / p] rounded down, or one less when
    [1000 w / p] is a whole number. *)
Lemma fracValue_spec (v p : Z) :
  0 <= v < 2 ^ 32 -> 65536 <= p < 2 ^ 32 ->
  let w := v mod p in
  let F := 1000 * w / p in
  exists frac,
    fracValue_of v p (v / p) 1000 = Some frac /\
    (frac = F \/ (frac = F - 1 /\ (1000 * w) mod p = 0 /\ 0 < F)).
Proof.
  intros Hv Hp w F. unfold fracValue_of, Double.div, Double.sub, Double.mul.
  destruct (DoubleFacts.of_Z_holds p ltac:(lia)) as (mp & ep & Ep & Hholds).
  destruct (Z.eq_dec v 0) as [V0|NZ].
  { exists 0. subst w F. rewrite V0. split.
    - rewrite Ep. reflexivity.
    - left. rewrite Z.mod_0_l by lia. reflexivity. }
  set (Q := v / p).
  assert (HQ : 0 <= Q < 2 ^ 53).
  { split; [apply Z.div_pos; lia|]. apply Z.div_lt_upper_bound; lia. }
  assert (Hw : 0 <= w < p) by (apply Z.mod_pos_bound; lia).
  assert (Evw : v = Q * p + w)
    by (unfold Q, w; pose proof (Z.div_mod v p ltac:(lia)); lia).
  set (rho := (1000 * w) mod p).
  assert (Hrho : 0 <= rho < p) by (apply Z.mod_pos_bound; lia).
  assert (EF : 1000 * w = F * p + rho)
    by (unfold F, rho; pose proof (Z.div_mod (1000 * w) p ltac:(lia)); lia).
  assert (HF : 0 <= F) by (apply Z.div_pos; lia).
  assert (HF' : F <= 999).
  { destruct (Z_le_gt_dec F 999) as [|C]; [assumption|exfalso].
    assert (1000 * p <= F * p) by (apply DoubleFacts.scale_le; lia). lia. }
  - destruct (DoubleFacts.div_bounds (Double.of_Z v) (Double.of_Z p) v p)
      as (m1 & e1 & -> & He1 & B1 & D1 & N1 & U1).
    { apply DoubleFacts.of_Z_holds; lia. }
    { rewrite Ep. exists mp, ep. split; [reflexivity | exact Hholds]. }
    { lia. } { lia. }
    fold Q in B1.
    set (a := 2 ^ (- e1)) in *.
    assert (Pa : 0 < a) by (apply DoubleFacts.pow2_pos; lia).
    set (k := Zpos m1 - Q * a).
    assert (Hk : 0 <= k <= a) by (subst k; lia).
    assert (Eva : v * a = (Q * p + w) * a) by (f_equal; exact Evw).
    assert (K1 : (k - 1) * p <= w * a) by (subst k; lia).
    assert (K2 : w * a < (k + 1) * p) by (subst k; lia).
    assert (Abig : 524288 * p < a).
    { assert (A1 : (Q + 1) * p < 2 ^ 33) by lia.
      assert (A2 : 2 ^ 52 * p <= (Q + 1) * a * p)
        by (apply DoubleFacts.scale_le; lia).
      assert (A3 : (Q + 1) * p * a < 2 ^ 33 * a)
        by (apply DoubleFacts.scale_lt; lia).
      lia. }
    destruct (DoubleFacts.sub_exact m1 e1 Q He1 B1 D1 HQ)
      as [[K0 ->] | (m2 & e2 & -> & He2 & M2 & D2)].
    + fold a in K0. fold k in K0.
      exists 0. split; [rewrite DoubleFacts.of_Z_1000; reflexivity|]. left.
      assert (w = 0).
      { destruct (Z.eq_dec w 0) as [|NW]; [assumption|exfalso].
        assert (1 * a <= w * a) by (apply DoubleFacts.scale_le; lia).
        rewrite K0 in K2. lia. }
      unfold F. replace w with 0 by lia. reflexivity.
    + fold a in M2. fold k in M2.
      set (T2 := 2 ^ (e1 - e2)) in *.
      assert (PT : 0 < T2) by (apply DoubleFacts.pow2_pos; lia).
      assert (E2 : 2 ^ (- e2) = a * T2).
      { unfold a, T2. rewrite <- Z.pow_add_r by lia. f_equal. lia. }
      destruct (DoubleFacts.mul_round m2 e2 ltac:(lia) ltac:(rewrite E2, M2; apply DoubleFacts.scale_le; lia) D2)
        as (m3 & e3 & -> & He3 & Lo3 & Up3).
      set (b := 2 ^ (- e3)) in *.
      set (G := 2 ^ (e3 - (e2 - 43))) in *.
      set (Tt := 2 ^ 43 * T2).
      assert (Pb : 0 < b) by (apply DoubleFacts.pow2_pos; lia).
      assert (PG : 0 < G) by (apply DoubleFacts.pow2_pos; lia).
      assert (PTt : 0 < Tt) by (unfold Tt; lia).
      assert (Bbig : 2 ^ 41 <= b) by (apply Z.pow_le_mono_r; lia).
      assert (E43 : 2 ^ (43 - e2) = a * Tt).
      { unfold Tt. replace (43 - e2) with (43 + - e2) by lia.
        rewrite Z.pow_add_r, E2 by lia. ring. }
      assert (EbG : b * G = a * Tt).
      { rewrite <- E43. unfold b, G. rewrite <- Z.pow_add_r by lia.
        f_equal. lia. }
      assert (EM : Zpos m2 * (1000 * 2 ^ 43) = 1000 * k * Tt)
        by (rewrite M2; unfold Tt; ring).
      rewrite E43, EM in Lo3. rewrite EM in Up3.
      assert (PaT : 0 < a * Tt) by (apply Z.mul_pos_pos; lia).
      assert (W1 : F * p <= 1000 * w <= (F + 1) * p - 1) by lia.
      (* upper bound *)
      assert (Upper : Zpos m3 <= (F + 1) * b - 1).
      { apply Up3.
        assert (S0 : 1000 * w * a <= ((F + 1) * p - 1) * a)
          by (apply Z.mul_le_mono_nonneg_r; lia).
        assert (S1 : 1000 * k * p <= ((F + 1) * p - 1) * a + 1000 * p) by lia.
        assert (S1' : 1000 * k * p * Tt
                      <= (((F + 1) * p - 1) * a + 1000 * p) * Tt)
          by (apply Z.mul_le_mono_nonneg_r; lia).
        assert (S2 : 512 * p * G <= b * G).
        { apply Z.mul_le_mono_nonneg_r; [lia|].
          change (2 ^ 41) with (512 * 2 ^ 32) in Bbig. lia. }
        assert (S3 : 512000 * p * Tt <= a * Tt)
          by (apply Z.mul_le_mono_nonneg_r; lia).
        rewrite EbG in S2.
        assert (S4 : p * (1000 * k * Tt + G) <= p * ((F + 1) * (a * Tt))) by lia.
        apply Z.mul_le_mono_pos_l in S4; [|lia].
        replace (((F + 1) * b - 1) * G) with ((F + 1) * (b * G) - G) by ring.
        rewrite EbG. lia. }
      assert (Hfrac : Zpos m3 / b <= F).
      { assert (Zpos m3 / b < F + 1)
          by (apply Z.div_lt_upper_bound; lia). lia. }
      (* lower bounds *)
      assert (L0 : F * p * a <= 1000 * w * a)
        by (apply Z.mul_le_mono_nonneg_r; lia).
      assert (L0' : 1000 * p <= a * p)
        by (apply Z.mul_le_mono_nonneg_r; lia).
      assert (Lower1 : F - 1 <= Zpos m3 / b).
      { apply Z.div_le_lower_bound; [lia|].
        rewrite Z.mul_comm. apply Lo3.
        assert (L1 : (F - 1) * a * p < 1000 * k * p) by lia.
        apply Z.mul_lt_mono_pos_r in L1; [|lia].
        replace ((F - 1) * (a * Tt)) with ((F - 1) * a * Tt) by ring.
        apply Z.mul_le_mono_nonneg_r; lia. }
      assert (Lower2 : rho <> 0 -> F <= Zpos m3 / b).
      { intros R. apply Z.div_le_lower_bound; [lia|].
        rewrite Z.mul_comm. apply Lo3.
        assert (L2 : 1 * a <= rho * a)
          by (apply Z.mul_le_mono_nonneg_r; lia).
        assert (L3 : 1000 * w * a = F * p * a + rho * a)
          by (rewrite EF; ring).
        assert (L1 : F * a * p < 1000 * k * p) by lia.
        apply Z.mul_lt_mono_pos_r in L1; [|lia].
        replace (F * (a * Tt)) with (F * a * Tt) by ring.
        apply Z.mul_le_mono_nonneg_r; lia. }
      exists (Zpos m3 / b). split.
      * apply DoubleFacts.to_uint32_floor; [lia|]. fold b. unfold UINT32_MAX. lia.
      * assert (0 <= Zpos m3 / b) by (apply Z.div_pos; lia).
        destruct (Z.eq_dec rho 0) as [R0|RN].
        -- destruct (Z.eq_dec (Zpos m3 / b) F) as [|NE]; [now left|].
           right. repeat split; try lia.
        -- left. specialize (Lower2 RN). lia.
Qed.

(** With a PFD frequency of at least 65536 Hz the FRAC computation is
    defined and yields less than 1000. *)
Lemma fracValue_defined (v p : Z) :
  0 <= v < 2 ^ 32 -> 65536 <= p < 2 ^ 32 ->
  exists frac, fracValue_of v p (v / p) 1000 = Some frac /\ 0 <= frac <= 999.
Proof.
  intros Hv Hp.
  destruct (fracValue_spec v p Hv Hp) as (frac & E & H).
  exists frac. split; [exact E|].
  pose proof (Z.mod_pos_bound v p ltac:(lia)) as Hw.
  assert (0 <= 1000 * (v mod p) / p) by (apply Z.div_pos; lia).
  assert (1000 * (v mod p) / p < 1000)
    by (apply Z.div_lt_upper_bound; lia).
  lia.
Qed.

(** ** The wire and the object *)

Lemma call_call (a b : list pin_call) (s : ADF4351) :
  call b (call a s) = call (a ++ b) s.
Proof. unfold call; cbn. now rewrite app_assoc. Qed.


Lemma emitted_trans (a b c : ADF4351) :
  emitted a b -> emitted b c -> emitted a c.
Proof.
  intros [x ->] [y ->]. exists (x ++ y). apply call_call.
Qed.

Lemma emitted_call (cs : list pin_call) (s : ADF4351) : emitted s (call cs s).
Proof. now exists cs. Qed.

Lemma shift_out_emitted (n : nat) (value : Z) (s : ADF4351) :
  emitted s (shift_out n value s).
Proof.
  revert s. induction n as [|n IH]; intros s; cbn [shift_out].
  - exists []. unfold call. destruct s; cbn. now rewrite app_nil_r.
  - eapply emitted_trans; [apply emitted_call | apply IH].
Qed.

Lemma writeRegister_emitted (value : Z) (s : ADF4351) :
  emitted s (writeRegister value s).
Proof.
  unfold writeRegister.
  eapply emitted_trans; [apply emitted_call|].
  eapply emitted_trans; [apply shift_out_emitted | apply emitted_call].
Qed.

Lemma write_down_emitted (n : nat) (s : ADF4351) :
  emitted s (write_down n s).
Proof.
  revert s. induction n as [|n IH]; intros s; cbn [write_down].
  - exists []. unfold call. destruct s; cbn. now rewrite app_nil_r.
  - eapply emitted_trans; [apply writeRegister_emitted | apply IH].
Qed.

Section Emitted.

Variables s s' : ADF4351.
Hypothesis H : emitted s s'.

Lemma emitted_registers : _registers s' = _registers s.
Proof. destruct H as [cs ->]. reflexivity. Qed.

Lemma emitted_frequency : _frequency s' = _frequency s.
Proof. destruct H as [cs ->]. reflexivity. Qed.

Lemma emitted_refFreq : _refFreq s' = _refFreq s.
Proof. destruct H as [cs ->]. reflexivity. Qed.

Lemma emitted_powerLevel : _powerLevel s' = _powerLevel s.
Proof. destruct H as [cs ->]. reflexivity. Qed.

Lemma emitted_outputEnabled : _outputEnabled s' = _outputEnabled s.
Proof. destruct H as [cs ->]. reflexivity. Qed.

Lemma emitted_lowNoiseMode : _lowNoiseMode s' = _lowNoiseMode s.
Proof. destruct H as [cs ->]. reflexivity. Qed.

Lemma emitted_reg (i : nat) : reg i s' = reg i s.
Proof. unfold reg. now rewrite emitted_registers. Qed.

End Emitted.


Lemma shaped_elements (s : ADF4351) :
  shaped s ->
  exists a b c d e f, _registers s = [a; b; c; d; e; f].
Proof.
  unfold shaped. destruct (_registers s) as [|a [|b [|c [|d [|e [|f [|g l]]]]]]];
    cbn; intros H; try discriminate.
  now exists a, b, c, d, e, f.
Qed.

(** What a defined run of [updateRegisters] computed and stored. *)
Lemma updateRegisters_inv (s s' : ADF4351) :
  updateRegisters s = Some s' ->
  _refFreq s <> 0 /\
  exists fracValue,
    let vcoFreq := vcoFreq_of (_frequency s) in
    let intValue := uint16_t (vcoFreq / _refFreq s) in
    fracValue_of vcoFreq (_refFreq s) intValue 1000 = Some fracValue /\
    s' = set_reg 5 R5
          (set_reg 4 (R4 (calculateRFDivider (_frequency s))
                         (_outputEnabled s))
            (set_reg 3 (R3 (_powerLevel s))
              (set_reg 2 (R2 (_lowNoiseMode s))
                (set_reg 1 R1
                  (set_reg 0 (R0 intValue fracValue) s))))).
Proof.
  unfold updateRegisters, udiv. cbn [Z.eqb bind].
  rewrite Z.div_1_r.
  destruct (Z.eqb_spec (_refFreq s) 0) as [E|E]; [discriminate|].
  cbn [bind].
  destruct (fracValue_of _ _ _ _) as [fracValue|] eqn:F; [|discriminate].
  cbn [bind]. intros [= <-].
  split; [exact E|]. exists fracValue. split; reflexivity.
Qed.

Lemma updateRegisters_defined (s : ADF4351) (fracValue : Z) :
  _refFreq s <> 0 ->
  fracValue_of (vcoFreq_of (_frequency s)) (_refFreq s)
    (uint16_t (vcoFreq_of (_frequency s) / _refFreq s)) 1000
    = Some fracValue ->
  exists s', updateRegisters s = Some s'.
Proof.
  intros E F. unfold updateRegisters, udiv. cbn [Z.eqb bind].
  rewrite Z.div_1_r.
  destruct (Z.eqb_spec (_refFreq s) 0) as [E'|_]; [contradiction|].
  cbn [bind]. fold (vcoFreq_of (_frequency s)).
  rewrite F. cbn [bind]. eauto.
Qed.

Lemma updateRegisters_members (s s' : ADF4351) :
  updateRegisters s = Some s' ->
  _frequency s' = _frequency s /\ _refFreq s' = _refFreq s /\
  _powerLevel s' = _powerLevel s /\ _outputEnabled s' = _outputEnabled s /\
  _lowNoiseMode s' = _lowNoiseMode s /\ wire s' = wire s.
Proof.
  intros H. apply updateRegisters_inv in H as (_ & fracValue & _ & ->).
  repeat split.
Qed.

Lemma updateRegisters_registers (s s' : ADF4351) :
  shaped s ->
  updateRegisters s = Some s' ->
  exists intValue fracValue,
    _registers s' =
      [ R0 intValue fracValue; R1; R2 (_lowNoiseMode s); R3 (_powerLevel s);
        R4 (calculateRFDivider (_frequency s)) (_outputEnabled s); R5 ].
Proof.
  intros Hs H. apply updateRegisters_inv in H as (_ & fracValue & _ & ->).
  destruct (shaped_elements s Hs) as (a & b & c & d & e & f & E).
  eexists _, fracValue. unfold set_reg; cbn [_registers with_registers].
  rewrite E. reflexivity.
Qed.

Lemma setFrequency_inv (f : Z) (s : ADF4351) (b : bool) (s' : ADF4351) :
  setFrequency f s = Some (b, s') ->
  (b = false /\ s' = s /\ (f < 35000000 \/ 4400000000 < f)) \/
  (b = true /\ 35000000 <= f <= 4400000000 /\
   exists s1, updateRegisters (with_frequency f s) = Some s1 /\
              s' = write_down 6 s1).
Proof.
  unfold setFrequency.
  destruct (Z.ltb_spec f 35000000); cbn [orb].
  - intros [= <- <-]. left. auto.
  - destruct (Z.ltb_spec 4400000000 f).
    + intros [= <- <-]. left. auto.
    + destruct (updateRegisters (with_frequency f s)) as [s1|] eqn:U;
        cbn [bind]; [|discriminate].
      intros [= <- <-]. right. repeat split; try lia. now exists s1.
Qed.

(** The members and registers after each setter. *)

Section Setters.

Variable s : ADF4351.
Variables a b c d e f : Z.
Hypothesis Hregs : _registers s = [a; b; c; d; e; f].

Lemma setPowerLevel_effect (level : Z) :
  let level' := if 3 <? level then 3 else level in
  _registers (setPowerLevel level s) =
    [a; b; c;
     Z.lor (Z.land d (uint32_t (Z.lnot (Z.shiftl 3 3)))) (Z.shiftl level' 3);
     e; f] /\
  _powerLevel (setPowerLevel level s) = level' /\
  _outputEnabled (setPowerLevel level s) = _outputEnabled s /\
  _lowNoiseMode (setPowerLevel level s) = _lowNoiseMode s.
Proof.
  unfold setPowerLevel.
  match goal with
  | |- context [writeRegister ?v ?t] =>
      pose proof (writeRegister_emitted v t) as E
  end.
  rewrite (emitted_registers _ _ E), (emitted_powerLevel _ _ E),
    (emitted_outputEnabled _ _ E), (emitted_lowNoiseMode _ _ E).
  unfold set_reg, reg; cbn. rewrite Hregs. cbn. auto.
Qed.

Lemma enableOutput_effect (enable : bool) :
  _registers (enableOutput enable s) =
    [a; b; c; d;
     if enable then Z.land e (uint32_t (Z.lnot (Z.shiftl 1 5)))
     else Z.lor e (Z.shiftl 1 5);
     f] /\
  _powerLevel (enableOutput enable s) = _powerLevel s /\
  _outputEnabled (enableOutput enable s) = enable /\
  _lowNoiseMode (enableOutput enable s) = _lowNoiseMode s.
Proof.
  unfold enableOutput.
  match goal with
  | |- context [writeRegister ?v ?t] =>
      pose proof (writeRegister_emitted v t) as E
  end.
  rewrite (emitted_registers _ _ E), (emitted_powerLevel _ _ E),
    (emitted_outputEnabled _ _ E), (emitted_lowNoiseMode _ _ E).
  destruct enable; unfold set_reg, reg; cbn; rewrite Hregs; cbn; auto.
Qed.

Lemma setPhase_effect (phase : Z) :
  let phase' := if 4095 <? phase then 4095 else phase in
  _registers (setPhase phase s) =
    [a;
     Z.lor (Z.land b (uint32_t (Z.lnot (Z.shiftl 4095 15))))
           (Z.shiftl phase' 15);
     c; d; e; f] /\
  _powerLevel (setPhase phase s) = _powerLevel s /\
  _outputEnabled (setPhase phase s) = _outputEnabled s /\
  _lowNoiseMode (setPhase phase s) = _lowNoiseMode s.
Proof.
  unfold setPhase.
  match goal with
  | |- context [writeRegister ?v ?t] =>
      pose proof (writeRegister_emitted v t) as E
  end.
  rewrite (emitted_registers _ _ E), (emitted_powerLevel _ _ E),
    (emitted_outputEnabled _ _ E), (emitted_lowNoiseMode _ _ E).
  unfold set_reg, reg; cbn. rewrite Hregs. cbn. auto.
Qed.

Lemma setLowNoiseMode_effect (lowNoise : bool) :
  _registers (setLowNoiseMode lowNoise s) =
    [a; b;
     if lowNoise then
       Z.land (Z.lor c (Z.shiftl 1 21)) (uint32_t (Z.lnot (Z.shiftl 1 20)))
     else
       Z.lor (Z.land c (uint32_t (Z.lnot (Z.shiftl 1 21)))) (Z.shiftl 1 20);
     d; e; f] /\
  _powerLevel (setLowNoiseMode lowNoise s) = _powerLevel s /\
  _outputEnabled (setLowNoiseMode lowNoise s) = _outputEnabled s /\
  _lowNoiseMode (setLowNoiseMode lowNoise s) = lowNoise.
Proof.
  unfold setLowNoiseMode.
  match goal with
  | |- context [writeRegister ?v ?t] =>
      pose proof (writeRegister_emitted v t) as E
  end.
  rewrite (emitted_registers _ _ E), (emitted_powerLevel _ _ E),
    (emitted_outputEnabled _ _ E), (emitted_lowNoiseMode _ _ E).
  destruct lowNoise; unfold set_reg, reg; cbn; rewrite Hregs; cbn; auto.
Qed.

End Setters.

Lemma setFrequency_effect (f : Z) (s s' : ADF4351) :
  shaped s ->
  setFrequency f s = Some (true, s') ->
  (exists intValue fracValue,
     _registers s' =
       [ R0 intValue fracValue; R1; R2 (_lowNoiseMode s);
         R3 (_powerLevel s);
         R4 (calculateRFDivider f) (_outputEnabled s); R5 ]) /\
  _frequency s' = f /\
  _refFreq s' = _refFreq s /\
  _powerLevel s' = _powerLevel s /\
  _outputEnabled s' = _outputEnabled s /\
  _lowNoiseMode s' = _lowNoiseMode s.
Proof.
  intros Hs H.
  apply setFrequency_inv in H as [(E & _)|(_ & Hf & s1 & U & ->)];
    [discriminate|].
  pose proof (write_down_emitted 6 s1) as E.
  rewrite (emitted_registers _ _ E), (emitted_powerLevel _ _ E),
    (emitted_outputEnabled _ _ E), (emitted_lowNoiseMode _ _ E),
    (emitted_frequency _ _ E), (emitted_refFreq _ _ E).
  destruct (updateRegisters_members _ _ U) as (M1 & M2 & M3 & M4 & M5 & _).
  rewrite M1, M2, M3, M4, M5.
  split; [|cbn; auto].
  apply updateRegisters_registers in U; [exact U | exact Hs].
Qed.

Lemma length_store (i : nat) (v : Z) (l : list Z) :
  length (store i v l) = length l.
Proof.
  revert i; induction l as [|h t IH]; intros [|i]; cbn; auto.
Qed.

Lemma shaped_set_reg (i : nat) (v : Z) (s : ADF4351) :
  shaped s -> shaped (set_reg i v s).
Proof.
  unfold shaped, set_reg; cbn. now rewrite length_store.
Qed.

Lemma shaped_emitted (s s' : ADF4351) : emitted s s' -> shaped s -> shaped s'.
Proof.
  intros E. unfold shaped. now rewrite (emitted_registers _ _ E).
Qed.

Lemma begin_effect (refFreq : Z) (s s' : ADF4351) :
  shaped s ->
  begin refFreq s = Some s' ->
  (exists intValue fracValue,
     _registers s' =
       [ R0 intValue fracValue; R1; R2 (_lowNoiseMode s);
         R3 (_powerLevel s); R4 5 (_outputEnabled s); R5 ]) /\
  _frequency s' = 100000000 /\
  _refFreq s' = refFreq /\
  _powerLevel s' = _powerLevel s /\
  _outputEnabled s' = _outputEnabled s /\
  _lowNoiseMode s' = _lowNoiseMode s.
Proof.
  intros Hs. unfold begin.
  match goal with
  | |- context [setFrequency _ (write_down 6 ?t)] =>
      set (s0 := t); pose proof (write_down_emitted 6 s0) as E
  end.
  assert (Hs0 : shaped s0) by (subst s0; repeat apply shaped_set_reg; exact Hs).
  destruct (setFrequency 100000000 (write_down 6 s0)) as [[b s1]|] eqn:F;
    cbn [bind]; [|discriminate].
  intros [= <-]; cbn [snd].
  destruct (setFrequency_inv _ _ _ _ F) as [(_ & _ & Hf)|(-> & _)]; [lia|].
  apply setFrequency_effect in F; [|eapply shaped_emitted; eassumption].
  rewrite (emitted_powerLevel _ _ E), (emitted_outputEnabled _ _ E),
    (emitted_lowNoiseMode _ _ E), (emitted_refFreq _ _ E) in F.
  exact F.
Qed.


Lemma addressed_intro (s : ADF4351) (a b c d e f : Z) :
  _registers s = [a; b; c; d; e; f] ->
  address_bits a = 0 -> address_bits b = 1 -> address_bits c = 2 ->
  address_bits d = 3 -> address_bits e = 4 -> address_bits f = 5 ->
  addressed s.
Proof.
  intros E Ha Hb Hc Hd He Hf i Hi. unfold reg. rewrite E.
  do 6 (destruct i as [|i]; [cbn; assumption|]). lia.
Qed.

Lemma addressed_elim (s : ADF4351) (a b c d e f : Z) :
  _registers s = [a; b; c; d; e; f] ->
  addressed s ->
  address_bits a = 0 /\ address_bits b = 1 /\ address_bits c = 2 /\
  address_bits d = 3 /\ address_bits e = 4 /\ address_bits f = 5.
Proof.
  intros E H. unfold addressed, reg in H. rewrite E in H.
  repeat split.
  - apply (H 0%nat); lia.
  - apply (H 1%nat); lia.
  - apply (H 2%nat); lia.
  - apply (H 3%nat); lia.
  - apply (H 4%nat); lia.
  - apply (H 5%nat); lia.
Qed.

Lemma address_R0 (i f : Z) : address_bits (R0 i f) = 0.
Proof.
  unfold R0. rewrite !address_lor, address_uint32, !address_shiftl by lia.
  reflexivity.
Qed.

Lemma address_R2 (b : bool) : address_bits (R2 b) = 2.
Proof. destruct b; reflexivity. Qed.

Lemma address_R3 (p : Z) : address_bits (R3 p) = 3.
Proof.
  unfold R3. rewrite !address_lor, !address_shiftl by lia. reflexivity.
Qed.

Lemma address_R4 (d : Z) (b : bool) : address_bits (R4 d b) = 4.
Proof.
  unfold R4. rewrite !address_lor, !address_shiftl by lia.
  destruct b; reflexivity.
Qed.

Lemma power_R3 (p : Z) : 0 <= p <= 3 -> power_field (R3 p) = p.
Proof.
  intros H.
  assert (D : p = 0 \/ p = 1 \/ p = 2 \/ p = 3) by lia.
  destruct D as [->|[->|[->| ->]]]; reflexivity.
Qed.

Lemma enable_R4 (d : Z) (b : bool) : Z.testbit (R4 d b) 5 = negb b.
Proof.
  unfold R4. rewrite !Z.lor_spec, Z.shiftl_spec_low by lia.
  destruct b; reflexivity.
Qed.

Lemma noise_R2 (b : bool) :
  Z.testbit (R2 b) 21 = b /\ Z.testbit (R2 b) 20 = negb b.
Proof. destruct b; split; reflexivity. Qed.

Lemma initialised_after_update (s : ADF4351) (i f d : Z) :
  constructed s ->
  _registers s =
    [R0 i f; R1; R2 (_lowNoiseMode s); R3 (_powerLevel s);
     R4 d (_outputEnabled s); R5] ->
  initialised s.
Proof.
  intros C E. split; [exact C|]. split.
  - eapply addressed_intro; [exact E|..];
      auto using address_R0, address_R2, address_R3, address_R4.
  - unfold mirrored, reg. rewrite E. cbn [nth].
    destruct (noise_R2 (_lowNoiseMode s)).
    repeat split; auto using enable_R4. apply power_R3, C.
Qed.

Lemma shaped_of_registers (s : ADF4351) (a b c d e f : Z) :
  _registers s = [a; b; c; d; e; f] -> shaped s.
Proof. unfold shaped. now intros ->. Qed.

Lemma begin_initialised (refFreq : Z) (s s' : ADF4351) :
  constructed s -> begin refFreq s = Some s' -> initialised s'.
Proof.
  intros [Hs Hp] B.
  destruct (begin_effect _ _ _ Hs B) as ((i & f & R) & _ & _ & P & O & L).
  apply (initialised_after_update s' i f 5).
  - split; [eapply shaped_of_registers; exact R | rewrite P; exact Hp].
  - now rewrite P, O, L.
Qed.

Lemma setFrequency_initialised (f : Z) (s s' : ADF4351) (b : bool) :
  constructed s ->
  setFrequency f s = Some (b, s') ->
  (b = false /\ s' = s) \/ (b = true /\ initialised s').
Proof.
  intros [Hs Hp] F. destruct b.
  - right. split; [reflexivity|].
    destruct (setFrequency_effect _ _ _ Hs F)
      as ((i & fr & R) & _ & _ & P & O & L).
    apply (initialised_after_update s' i fr (calculateRFDivider f)).
    + split; [eapply shaped_of_registers; exact R | rewrite P; exact Hp].
    + now rewrite P, O, L.
  - left. apply setFrequency_inv in F as [(_ & -> & _)|(E & _)];
      [auto | discriminate].
Qed.

Lemma clamp_level (level : Z) :
  is_uint8 level -> 0 <= (if 3 <? level then 3 else level) <= 3.
Proof. unfold is_uint8. destruct (Z.ltb_spec 3 level); lia. Qed.

Lemma clamp_phase (phase : Z) :
  is_uint16 phase -> 0 <= (if 4095 <? phase then 4095 else phase) <= 4095.
Proof. unfold is_uint16. destruct (Z.ltb_spec 4095 phase); lia. Qed.

Lemma step_Begin (refFreq : Z) (s : ADF4351) :
  step (Begin refFreq) s = begin refFreq s.
Proof. reflexivity. Qed.

Lemma step_SetFrequency (f : Z) (s : ADF4351) :
  step (SetFrequency f) s = (r <- setFrequency f s ;; Some (snd r)).
Proof. reflexivity. Qed.

(** Every call keeps the object constructed. *)
Lemma step_constructed (c : api_call) (s s' : ADF4351) :
  constructed s -> well_typed c -> step c s = Some s' -> constructed s'.
Proof.
  intros C T H. pose proof C as [Hs Hp].
  destruct (shaped_elements s Hs) as (r0 & r1 & r2 & r3 & r4 & r5 & E).
  destruct c as [refFreq|f|level|enable|phase|lowNoise];
    [ rewrite step_Begin in H | rewrite step_SetFrequency in H
    | cbn [step well_typed] in H, T .. ].
  - destruct (begin_initialised _ _ _ C H) as [C' _]. exact C'.
  - destruct (setFrequency f s) as [[b s1]|] eqn:F; [|discriminate].
    cbn [bind snd] in H. injection H as <-.
    destruct (setFrequency_initialised _ _ _ _ C F) as [(_ & ->)|(_ & I)];
      [exact C | destruct I as [C' _]; exact C'].
  - injection H as <-.
    destruct (setPowerLevel_effect s _ _ _ _ _ _ E level) as (R & P & _).
    split; [eapply shaped_of_registers; exact R|].
    rewrite P. now apply clamp_level.
  - injection H as <-.
    destruct (enableOutput_effect s _ _ _ _ _ _ E enable) as (R & P & _).
    split; [eapply shaped_of_registers; exact R | rewrite P; exact Hp].
  - injection H as <-.
    destruct (setPhase_effect s _ _ _ _ _ _ E phase) as (R & P & _).
    split; [eapply shaped_of_registers; exact R | rewrite P; exact Hp].
  - injection H as <-.
    destruct (setLowNoiseMode_effect s _ _ _ _ _ _ E lowNoise) as (R & P & _).
    split; [eapply shaped_of_registers; exact R | rewrite P; exact Hp].
Qed.

(** A setter that updates one field leaves the address bits of every
    register as they were, whatever the registers hold. *)
Lemma field_update_address (c : api_call) (s s' : ADF4351) :
  shaped s -> field_update c -> step c s = Some s' ->
  forall i : nat, address_bits (reg i s') = address_bits (reg i s).
Proof.
  intros Hs U H i.
  destruct (shaped_elements s Hs) as (r0 & r1 & r2 & r3 & r4 & r5 & E).
  destruct c as [refFreq|f|level|enable|phase|lowNoise];
    cbn [field_update] in U; try contradiction;
    cbn [step] in H; injection H as <-; unfold reg; rewrite E.
  - destruct (setPowerLevel_effect s _ _ _ _ _ _ E level) as (-> & _).
    destruct i as [|[|[|[|[|[|i]]]]]]; cbn [nth]; try reflexivity.
    apply field_insert_low with (pos := 3) (width := 2) (n := 3); lia.
  - destruct (enableOutput_effect s _ _ _ _ _ _ E enable) as (-> & _).
    destruct i as [|[|[|[|[|[|i]]]]]]; cbn [nth]; try reflexivity.
    destruct enable.
    + apply field_clear_low with (pos := 5) (width := 1) (n := 3); lia.
    + apply field_set_low with (v := 1) (pos := 5) (n := 3); lia.
  - destruct (setPhase_effect s _ _ _ _ _ _ E phase) as (-> & _).
    destruct i as [|[|[|[|[|[|i]]]]]]; cbn [nth]; try reflexivity.
    apply field_insert_low with (pos := 15) (width := 12) (n := 3); lia.
  - destruct (setLowNoiseMode_effect s _ _ _ _ _ _ E lowNoise) as (-> & _).
    destruct i as [|[|[|[|[|[|i]]]]]]; cbn [nth]; try reflexivity.
    destruct lowNoise.
    + unfold address_bits. change 7 with (Z.ones 3).
      rewrite field_clear_low with (pos := 20) (width := 1) (n := 3) by lia.
      apply field_set_low with (v := 1) (pos := 21) (n := 3); lia.
    + unfold address_bits. change 7 with (Z.ones 3).
      rewrite field_set_low with (v := 1) (pos := 20) (n := 3) by lia.
      apply field_clear_low with (pos := 21) (width := 1) (n := 3); lia.
Qed.

Lemma testbit_clear (r pos : Z) :
  0 <= pos < 32 ->
  Z.testbit (Z.land r (uint32_t (Z.lnot (Z.shiftl 1 pos)))) pos = false.
Proof.
  intros H. unfold uint32_t.
  rewrite Z.land_spec, Z.testbit_mod_pow2, Z.lnot_spec, Z.shiftl_spec by lia.
  replace (pos - pos) with 0 by lia. cbn. btauto.
Qed.

Lemma testbit_set (r pos : Z) :
  0 <= pos -> Z.testbit (Z.lor r (Z.shiftl 1 pos)) pos = true.
Proof.
  intros H. rewrite Z.lor_spec, Z.shiftl_spec by lia.
  replace (pos - pos) with 0 by lia. cbn. btauto.
Qed.

Lemma testbit_clear_other (r pos k : Z) :
  0 <= pos -> 0 <= k < 32 -> k <> pos ->
  Z.testbit (Z.land r (uint32_t (Z.lnot (Z.shiftl 1 pos)))) k = Z.testbit r k.
Proof.
  intros Hp Hk Hne. unfold uint32_t.
  rewrite Z.land_spec, Z.testbit_mod_pow2, Z.lnot_spec, Z.shiftl_spec by lia.
  destruct (Z.ltb_spec k 32); [|lia].
  destruct (Z.ltb_spec k pos).
  - rewrite (Z.testbit_neg_r 1) by lia. cbn. btauto.
  - rewrite (Z.bits_above_log2 1 (k - pos)) by (cbn; lia). cbn. btauto.
Qed.

Lemma testbit_set_other (r pos k : Z) :
  0 <= pos -> 0 <= k -> k <> pos ->
  Z.testbit (Z.lor r (Z.shiftl 1 pos)) k = Z.testbit r k.
Proof.
  intros Hp Hk Hne. rewrite Z.lor_spec, Z.shiftl_spec by lia.
  destruct (Z.ltb_spec k pos).
  - rewrite (Z.testbit_neg_r 1) by lia. btauto.
  - rewrite (Z.bits_above_log2 1 (k - pos)) by (cbn; lia). btauto.
Qed.

(** Every call keeps an initialised object initialised. *)
Lemma step_initialised (c : api_call) (s s' : ADF4351) :
  initialised s -> well_typed c -> step c s = Some s' -> initialised s'.
Proof.
  intros I T H. pose proof I as (C & A & M).
  pose proof C as [Hs Hp].
  destruct (shaped_elements s Hs) as (r0 & r1 & r2 & r3 & r4 & r5 & E).
  destruct c as [refFreq|f|level|enable|phase|lowNoise];
    [ rewrite step_Begin in H; apply (begin_initialised _ _ _ C H)
    | rewrite step_SetFrequency in H | .. ].
  { destruct (setFrequency f s) as [[b s1]|] eqn:F; [|discriminate].
    cbn [bind snd] in H. injection H as <-.
    destruct (setFrequency_initialised _ _ _ _ C F) as [(_ & ->)|(_ & I')];
      assumption. }
  all: split; [exact (step_constructed _ _ _ C T H)|].
  all: split;
    [ intros i Hi;
      match type of H with
      | step ?c _ = _ => rewrite (field_update_address c _ _ Hs Logic.I H)
      end;
      apply A, Hi | ].
  all: unfold mirrored, reg in M |- *; rewrite E in M; cbn [nth] in M;
    destruct M as (M3 & M4 & M21 & M20);
    cbn [step] in H; injection H as <-.
  - destruct (setPowerLevel_effect s _ _ _ _ _ _ E level) as (-> & -> & -> & ->).
    cbn [nth]. repeat split; try assumption.
    apply field_insert with (pos := 3) (width := 2); try lia.
    pose proof (clamp_level level T). cbn. lia.
  - destruct (enableOutput_effect s _ _ _ _ _ _ E enable) as (-> & -> & -> & ->).
    cbn [nth]. repeat split; try assumption.
    destruct enable; cbn [negb].
    + apply testbit_clear; lia.
    + apply testbit_set; lia.
  - destruct (setPhase_effect s _ _ _ _ _ _ E phase) as (-> & -> & -> & ->).
    cbn [nth]. repeat split; assumption.
  - destruct (setLowNoiseMode_effect s _ _ _ _ _ _ E lowNoise)
      as (-> & -> & -> & ->).
    cbn [nth]. repeat split; try assumption; destruct lowNoise; cbn [negb].
    + rewrite testbit_clear_other by lia. apply testbit_set; lia.
    + rewrite testbit_set_other by lia. apply testbit_clear; lia.
    + apply testbit_clear; lia.
    + apply testbit_set; lia.
Qed.

(** ** Sequences of calls *)

Lemma bind_Some {A B : Type} (m : option A) (k : A -> option B) (b : B) :
  bind m k = Some b -> exists a, m = Some a /\ k a = Some b.
Proof. destruct m as [a|]; cbn; [eauto | discriminate]. Qed.

Lemma run_cons (c : api_call) (cs : list api_call) (s : ADF4351) :
  run (c :: cs) s = (s' <- step c s ;; run cs s').
Proof. reflexivity. Qed.

Lemma run_app (xs ys : list api_call) (s : ADF4351) :
  run (xs ++ ys) s = (s' <- run xs s ;; run ys s').
Proof.
  revert s. induction xs as [|c xs IH]; intros s; cbn [run app bind].
  - reflexivity.
  - destruct (step c s) as [s1|]; cbn [bind]; [apply IH | reflexivity].
Qed.

Lemma run_constructed (cs : list api_call) (s s' : ADF4351) :
  Forall well_typed cs -> constructed s -> run cs s = Some s' ->
  constructed s'.
Proof.
  intros T. revert s. induction T as [|c cs Tc _ IH]; intros s C;
    cbn [run].
  - now intros [= <-].
  - destruct (step c s) as [s1|] eqn:S; cbn [bind]; [|discriminate].
    apply IH. exact (step_constructed _ _ _ C Tc S).
Qed.

Lemma run_initialised (cs : list api_call) (s s' : ADF4351) :
  Forall well_typed cs -> initialised s -> run cs s = Some s' ->
  initialised s'.
Proof.
  intros T. revert s. induction T as [|c cs Tc _ IH]; intros s I;
    cbn [run].
  - now intros [= <-].
  - destruct (step c s) as [s1|] eqn:S; cbn [bind]; [|discriminate].
    apply IH. exact (step_initialised _ _ _ I Tc S).
Qed.

Lemma constructed_new (le clk data ce junk : Z) :
  constructed (ADF4351_new le clk data ce junk).
Proof. split; [reflexivity | cbn; lia]. Qed.

(** After [begin], whatever was called before it and whatever is called
    after it. *)
Lemma begun_initialised (le clk data ce junk : Z)
  (before : list api_call) (refFreq : Z) (after : list api_call)
  (s : ADF4351) :
  Forall well_typed (before ++ Begin refFreq :: after) ->
  run (before ++ Begin refFreq :: after) (ADF4351_new le clk data ce junk)
    = Some s ->
  initialised s.
Proof.
  intros T H. rewrite run_app in H.
  apply Forall_app in T as [Tb Ta]. inversion Ta as [|? ? _ Ta']; subst.
  apply bind_Some in H as (s0 & R0 & H).
  rewrite run_cons in H. apply bind_Some in H as (s1 & B & H).
  rewrite step_Begin in B.
  apply (run_initialised after s1 s Ta'); [|exact H].
  apply (begin_initialised refFreq s0 s1); [|exact B].
  apply (run_constructed before _ s0 Tb (constructed_new _ _ _ _ _) R0).
Qed.

(** ** The claims about the register array *)

(** C7: once [begin] has run, after every call of the public interface the
    low three bits of register [i] hold [i], for the six registers; and a
    setter that updates one field (power, output enable, phase, noise mode)
    leaves the low three bits of every register as they were. *)
Theorem address_bits_kept (le clk data ce junk : Z)
  (before : list api_call) (refFreq : Z) (after : list api_call)
  (s : ADF4351) :
  Forall well_typed (before ++ Begin refFreq :: after) ->
  run (before ++ Begin refFreq :: after) (ADF4351_new le clk data ce junk)
    = Some s ->
  (forall i : nat, (i < 6)%nat -> Z.land (reg i s) 7 = Z.of_nat i) /\
  (forall (c : api_call) (s' : ADF4351),
      field_update c -> step c s = Some s' ->
      forall i : nat, Z.land (reg i s') 7 = Z.land (reg i s) 7).
Proof.
  intros T H.
  destruct (begun_initialised _ _ _ _ _ _ _ _ _ T H) as ((Hs & _) & A & _).
  split; [exact A|].
  intros c s' U S i. exact (field_update_address c s s' Hs U S i).
Qed.


Lemma example_calls_typed : Forall well_typed example_calls.
Proof.
  unfold example_calls.
  repeat constructor; unfold is_uint32, is_uint16, is_uint8; lia.
Qed.

Lemma address_bits_kept_witness :
  exists s,
    run example_calls (ADF4351_new 5 2 3 4 0) = Some s /\
    forall i : nat, (i < 6)%nat -> Z.land (reg i s) 7 = Z.of_nat i.
Proof.
  eexists. split; [vm_compute; reflexivity|].
  refine (proj1 (address_bits_kept 5 2 3 4 0 [SetPowerLevel 2] 25000000
                   (skipn 2 example_calls) _ example_calls_typed _)).
  vm_compute; reflexivity.
Defined.

(** C6, on the code: a phase set with [setPhase] is in register 1 until the
    next [setFrequency], which writes phase 0 there; the power level, the
    output enable and the noise mode come through. *)
Theorem phase_lost_at_setFrequency :
  exists s1 s2,
    run [Begin 25000000; SetPowerLevel 1; EnableOutput false;
         SetLowNoiseMode false; SetPhase 100] (ADF4351_new 5 2 3 4 0)
      = Some s1 /\
    phase_field (reg 1 s1) = 100 /\
    setFrequency 145000000 s1 = Some (true, s2) /\
    phase_field (reg 1 s2) = 0 /\
    power_field (reg 3 s2) = 1 /\
    Z.testbit (reg 4 s2) 5 = true /\
    Z.testbit (reg 2 s2) 20 = true.
Proof.
  do 2 eexists.
  split; [vm_compute; reflexivity|].
  split; [vm_compute; reflexivity|].
  split; [vm_compute; reflexivity|].
  repeat split; vm_compute; reflexivity.
Qed.

(** The part of C6 that holds: registers 2, 3 and 4 mirror the members
    after every call that follows [begin]. *)
Lemma members_mirrored (le clk data ce junk : Z)
  (before : list api_call) (refFreq : Z) (after : list api_call)
  (s : ADF4351) :
  Forall well_typed (before ++ Begin refFreq :: after) ->
  run (before ++ Begin refFreq :: after) (ADF4351_new le clk data ce junk)
    = Some s ->
  mirrored s.
Proof.
  intros T H. apply (begun_initialised _ _ _ _ _ _ _ _ _ T H).
Qed.

(** [setPhase] itself stores the phase ... *)
Lemma setPhase_stores (phase : Z) (s : ADF4351) :
  shaped s -> 0 <= phase <= 4095 ->
  phase_field (reg 1 (setPhase phase s)) = phase.
Proof.
  intros Hs Hp.
  destruct (shaped_elements s Hs) as (r0 & r1 & r2 & r3 & r4 & r5 & E).
  destruct (setPhase_effect s _ _ _ _ _ _ E phase) as (R & _).
  unfold reg. rewrite R. cbn [nth].
  destruct (Z.ltb_spec 4095 phase); [lia|].
  unfold phase_field. change 4095 with (Z.ones 12).
  apply field_insert; lia.
Qed.

(** ... and every accepted [setFrequency] puts phase 0 in its place. *)
Lemma setFrequency_clears_phase (f : Z) (s s' : ADF4351) :
  shaped s -> setFrequency f s = Some (true, s') ->
  phase_field (reg 1 s') = 0.
Proof.
  intros Hs F.
  destruct (setFrequency_effect _ _ _ Hs F) as ((i & fr & R) & _).
  unfold reg. rewrite R. reflexivity.
Qed.

(** ** The range test of [setFrequency] *)

Lemma setFrequency_out_of_range (f : Z) (s : ADF4351) :
  f < 35000000 \/ 4400000000 < f -> setFrequency f s = Some (false, s).
Proof.
  intros H. unfold setFrequency.
  destruct (Z.ltb_spec f 35000000); cbn [orb]; [reflexivity|].
  destruct (Z.ltb_spec 4400000000 f); [reflexivity | lia].
Qed.




(** C10: the argument of [setFrequency] is a [uint32_t], hence at most
    4,294,967,295: the test against 4.4 GHz never succeeds, the call
    returns false exactly when the argument is below 35 MHz, and no value
    between 4,294,967,296 and 4,400,000,000 is an argument (converted to
    [uint32_t], such a value is 2^32 smaller). *)
Theorem upper_bound_unreachable (f : Z) (s : ADF4351) :
  is_uint32 f ->
  (4400000000 <? f) = false /\
  ((exists s', setFrequency f s = Some (false, s')) <-> f < 35000000) /\
  ~ (UINT32_MAX < f <= 4400000000) /\
  (forall z : Z, UINT32_MAX < z <= 4400000000 ->
     is_uint32 (uint32_t z) /\ uint32_t z = z - 2 ^ 32).
Proof.
  unfold is_uint32, UINT32_MAX. intros Hf.
  split; [apply Z.ltb_ge; lia|].
  split; [|split].
  - split.
    + intros [s' E]. apply setFrequency_inv in E as [(_ & _ & H)|(H & _)];
        [lia | discriminate].
    + intros H. exists s. apply setFrequency_out_of_range. now left.
  - lia.
  - intros z Hz. unfold uint32_t.
    assert (E : z mod 2 ^ 32 = z - 2 ^ 32).
    { symmetry. apply Z.mod_unique with (q := 1); lia. }
    rewrite E. lia.
Qed.

Lemma upper_bound_unreachable_witness :
  (4400000000 <? UINT32_MAX) = false /\
  ((exists s', setFrequency UINT32_MAX (ADF4351_new 5 2 3 4 0)
                 = Some (false, s')) <-> UINT32_MAX < 35000000).
Proof.
  assert (H : is_uint32 UINT32_MAX) by (unfold is_uint32, UINT32_MAX; lia).
  destruct (upper_bound_unreachable UINT32_MAX (ADF4351_new 5 2 3 4 0) H)
    as (A & B & _).
  exact (conj A B).
Defined.


(** ** Accepted frequencies *)

Lemma vcoFreq_of_range (f : Z) : is_uint32 (vcoFreq_of f).
Proof. unfold vcoFreq_of, uint32_t, is_uint32. apply Z.mod_pos_bound. lia. Qed.

Lemma vcoFreq_of_product (f : Z) :
  vcoFreq_of f = (f * 2 ^ calculateRFDivider f) mod 2 ^ 32.
Proof. unfold vcoFreq_of. now rewrite rfDivider_pow2. Qed.

Lemma quotient_fits (v p : Z) :
  is_uint32 v -> 65536 <= p -> uint16_t (v / p) = v / p /\ 0 <= v / p < 65536.
Proof.
  unfold is_uint32. intros Hv Hp.
  assert (H : 0 <= v / p < 65536).
  { split; [apply Z.div_pos; lia|]. apply Z.div_lt_upper_bound; lia. }
  split; [|exact H]. unfold uint16_t. apply Z.mod_small.
  change (2 ^ 16) with 65536. exact H.
Qed.

(** With a reference of 65536 Hz or more, [updateRegisters] is defined. *)
Lemma updateRegisters_total (s : ADF4351) :
  65536 <= _refFreq s <= UINT32_MAX ->
  exists s', updateRegisters s = Some s'.
Proof.
  unfold UINT32_MAX. intros Hp.
  pose proof (vcoFreq_of_range (_frequency s)) as Hv.
  destruct (quotient_fits _ (_refFreq s) Hv ltac:(lia)) as [Eq _].
  destruct (fracValue_defined (vcoFreq_of (_frequency s)) (_refFreq s))
    as (fracValue & F & _); [exact Hv | lia |].
  apply (updateRegisters_defined s fracValue); [lia|].
  rewrite Eq. exact F.
Qed.

Lemma setFrequency_total (f : Z) (s : ADF4351) :
  35000000 <= f <= 4400000000 ->
  65536 <= _refFreq s <= UINT32_MAX ->
  exists s', setFrequency f s = Some (true, s').
Proof.
  intros Hf Hp. unfold setFrequency.
  destruct (Z.ltb_spec f 35000000); [lia|].
  destruct (Z.ltb_spec 4400000000 f); [lia|]. cbn [orb].
  destruct (updateRegisters_total (with_frequency f s) Hp) as [s1 ->].
  cbn [bind]. eauto.
Qed.




(** ** INT and FRAC *)

Lemma INT_R0 (i f : Z) :
  0 <= i < 2 ^ 16 -> 0 <= f < 2 ^ 12 -> INT_field (R0 i f) = i.
Proof.
  intros Hi Hf. unfold INT_field, R0, uint32_t.
  rewrite <- (Z.mod_small i (2 ^ 16)), <- (Z.mod_small f (2 ^ 12)) by lia.
  change 65535 with (Z.ones 16). bits.
Qed.

Lemma FRAC_R0 (i f : Z) :
  0 <= i -> 0 <= f < 2 ^ 12 -> FRAC_field (R0 i f) = f.
Proof.
  intros Hi Hf. unfold FRAC_field, R0, uint32_t.
  rewrite <- (Z.mod_small f (2 ^ 12)) by lia.
  change 4095 with (Z.ones 12). bits.
Qed.

(** Register 0 after an accepted [setFrequency], for a reference of at
    least 65536 Hz: INT is the quotient of the 32-bit VCO product by the
    PFD frequency, FRAC the value of the floating-point expression. *)
Lemma setFrequency_register0 (f : Z) (s s' : ADF4351) :
  shaped s ->
  65536 <= _refFreq s <= UINT32_MAX ->
  setFrequency f s = Some (true, s') ->
  let vcoFreq := vcoFreq_of f in
  let pfdFreq := _refFreq s in
  exists fracValue,
    fracValue_of vcoFreq pfdFreq (vcoFreq / pfdFreq) 1000 = Some fracValue /\
    0 <= fracValue <= 999 /\
    0 <= vcoFreq / pfdFreq < 65536 /\
    reg 0 s' = R0 (vcoFreq / pfdFreq) fracValue /\
    INT_field (reg 0 s') = vcoFreq / pfdFreq /\
    FRAC_field (reg 0 s') = fracValue.
Proof.
  intros Hs Hp E vcoFreq pfdFreq. unfold UINT32_MAX in Hp.
  apply setFrequency_inv in E as [(D & _)|(_ & _ & s1 & U & ->)];
    [discriminate|].
  unfold reg. rewrite (emitted_registers _ _ (write_down_emitted 6 s1)).
  apply updateRegisters_inv in U as (_ & fracValue & F & ->).
  cbn [_frequency _refFreq with_frequency] in F. fold vcoFreq pfdFreq in F.
  destruct (quotient_fits vcoFreq pfdFreq (vcoFreq_of_range f) ltac:(lia))
    as [Eq Hq].
  rewrite Eq in F.
  destruct (fracValue_defined vcoFreq pfdFreq) as (fr & F' & Hfr);
    [apply vcoFreq_of_range | subst pfdFreq; lia |].
  rewrite F in F'. injection F' as <-.
  exists fracValue. split; [exact F|]. split; [exact Hfr|].
  split; [exact Hq|].
  destruct (shaped_elements s Hs) as (a & b & c & d & e & g & R).
  assert (R0eq : nth 0 (_registers
            (set_reg 5 R5
               (set_reg 4 (R4 (calculateRFDivider (_frequency (with_frequency f s)))
                              (_outputEnabled (with_frequency f s)))
                  (set_reg 3 (R3 (_powerLevel (with_frequency f s)))
                     (set_reg 2 (R2 (_lowNoiseMode (with_frequency f s)))
                        (set_reg 1 R1
                           (set_reg 0
                              (R0 (uint16_t
                                     (vcoFreq_of (_frequency (with_frequency f s)) /
                                      _refFreq (with_frequency f s))) fracValue)
                              (with_frequency f s)))))))) 0
          = R0 (vcoFreq / pfdFreq) fracValue).
  { unfold set_reg; cbn [_registers with_registers with_frequency
                         _frequency _refFreq].
    rewrite R. cbn [store nth]. fold vcoFreq pfdFreq. now rewrite Eq. }
  rewrite R0eq.
  split; [reflexivity|].
  split; [apply INT_R0 | apply FRAC_R0]; cbn; lia.
Qed.

(** C9: when the frequency times two to the divider exponent exceeds
    4,294,967,295, [updateRegisters] works with that product less 2^32:
    the INT written to register 0 is the quotient of the wrapped product by
    the PFD frequency, smaller than the quotient of the VCO frequency, and
    FRAC is computed from the wrapped product too. *)
Theorem vco_product_wraps (f : Z) (s : ADF4351) :
  35000000 <= f <= UINT32_MAX ->
  UINT32_MAX < f * 2 ^ calculateRFDivider f ->
  shaped s ->
  65536 <= _refFreq s <= UINT32_MAX ->
  let vco := f * 2 ^ calculateRFDivider f in
  let wrapped := vco - 2 ^ 32 in
  vcoFreq_of f = wrapped /\
  exists s' fracValue,
    setFrequency f s = Some (true, s') /\
    INT_field (reg 0 s') = wrapped / _refFreq s /\
    wrapped / _refFreq s < vco / _refFreq s /\
    fracValue_of wrapped (_refFreq s) (wrapped / _refFreq s) 1000
      = Some fracValue /\
    FRAC_field (reg 0 s') = fracValue.
Proof.
  intros Hf Hw Hs Hp vco wrapped. unfold UINT32_MAX in Hf, Hw, Hp.
  pose proof (product_in_band f ltac:(lia)) as Hb. fold vco in Hb, Hw.
  assert (W : vcoFreq_of f = wrapped).
  { rewrite vcoFreq_of_product. fold vco. symmetry.
    apply Z.mod_unique with (q := 1); subst wrapped; lia. }
  split; [exact W|].
  destruct (setFrequency_total f s ltac:(lia) Hp) as [s' E].
  destruct (setFrequency_register0 f s s' Hs Hp E)
    as (fracValue & F & _ & _ & _ & I & Fr).
  rewrite W in *.
  exists s', fracValue. repeat split; try assumption.
  assert (Q : wrapped / _refFreq s + 1 <= vco / _refFreq s).
  { replace vco with (wrapped + 2 ^ 32) by (subst wrapped; lia).
    apply Z.div_le_lower_bound; [lia|].
    pose proof (Z.mul_div_le wrapped (_refFreq s) ltac:(lia)). lia. }
  lia.
Qed.

Lemma vco_product_wraps_witness :
  vcoFreq_of 67500000 = 25032704 /\
  exists s' fracValue,
    setFrequency 67500000 (with_refFreq 25000000 (ADF4351_new 5 2 3 4 0))
      = Some (true, s') /\
    INT_field (reg 0 s') = 25032704 / 25000000 /\
    25032704 / 25000000 < 4320000000 / 25000000 /\
    fracValue_of 25032704 25000000 (25032704 / 25000000) 1000
      = Some fracValue /\
    FRAC_field (reg 0 s') = fracValue.
Proof.
  apply (vco_product_wraps 67500000
           (with_refFreq 25000000 (ADF4351_new 5 2 3 4 0)));
    cbn; unfold UINT32_MAX; try reflexivity; lia.
Defined.

(** At 67.5 MHz with a 25 MHz reference register 0 holds INT = 1 and
    FRAC = 1; the VCO frequency 4.32 GHz asks for INT = 172, FRAC = 800. *)
Example wrapped_67500000 :
  exists s s',
    begin 25000000 (ADF4351_new 5 2 3 4 0) = Some s /\
    setFrequency 67500000 s = Some (true, s') /\
    reg 0 s' = 32776 /\
    INT_field (reg 0 s') = 1 /\ FRAC_field (reg 0 s') = 1 /\
    4320000000 / 25000000 = 172 /\
    1000 * (4320000000 mod 25000000) / 25000000 = 800.
Proof.
  do 2 eexists.
  split; [vm_compute; reflexivity|].
  split; [vm_compute; reflexivity|].
  repeat split.
Qed.




